(** * GenieChat: the conversation session and its message reconciliation

    A shallow embedding of [client/src/components/GenieChat.tsx]: the
    component state ([messages], [input], [isLoading], [conversationId],
    [error]), the [sendMessage] handler split at its [await]s into the
    synchronous prefix (run when the handler is called) and the
    continuation (run when the outbound call has settled), and the part of
    the render function that shows a result payload.

    Conventions of the embedding:
    - a JavaScript string is the sequence of its UTF-16 code units;
    - the clock ([Date.now()], [new Date()]) is an input of each event;
    - a handler runs against the state of the latest render: React renders
      again after each event and after each continuation, before the next
      event is delivered;
    - the state setters called in one synchronous stretch of code are
      applied together, the functional ones ([setMessages(prev => ...)]) to
      the state current at that moment;
    - response bodies have the field types the [Message] interface and the
      relay's interface give them; a field may be absent. *)

From Stdlib Require Import String Ascii DecimalString.
From Stdlib Require Import NArith ZArith Lia Bool List.
Import ListNotations.

(* ===================================================================== *)
(** ** JavaScript strings *)

Module JsString.

(** A string is the list of its UTF-16 code units. *)
Definition jsstr := list N.

(** A literal of the source, written as a Rocq string of ASCII characters. *)
Definition lit (s : string) : jsstr := map N_of_ascii (list_ascii_of_string s).

(** ToBoolean on a string: only the empty string is falsy. *)
Definition truthy (s : jsstr) : bool :=
  match s with [] => false | _ :: _ => true end.

(** The code units [String.prototype.trim] strips: ECMAScript WhiteSpace
    (TAB, VT, FF, ZWNBSP and the Unicode space separators) and
    LineTerminator (LF, CR, LS, PS). *)
Definition isWhiteSpace (c : N) : bool :=
  ((9 <=? c) && (c <=? 13)          (* TAB LF VT FF CR *)
   || (c =? 32)                     (* SP *)
   || (c =? 160)                    (* NBSP *)
   || (c =? 5760)                   (* U+1680 *)
   || (8192 <=? c) && (c <=? 8202)  (* U+2000 .. U+200A *)
   || (c =? 8232) || (c =? 8233)    (* LS PS *)
   || (c =? 8239)                   (* U+202F *)
   || (c =? 8287)                   (* U+205F *)
   || (c =? 12288)                  (* U+3000 *)
   || (c =? 65279))%N.              (* U+FEFF *)

Fixpoint trimStart (s : jsstr) : jsstr :=
  match s with
  | [] => []
  | c :: s' => if isWhiteSpace c then trimStart s' else s
  end.

Definition trimEnd (s : jsstr) : jsstr := rev (trimStart (rev s)).

(** [s.trim()] *)
Definition trim (s : jsstr) : jsstr := trimEnd (trimStart s).

(** [n.toString()] for a non-negative integer: its decimal digits. *)
Definition toString (n : N) : jsstr :=
  lit (NilZero.string_of_uint (N.to_uint n)).

(** [a || b] where [b] is a string and [a] is a string or [undefined]. *)
Definition or_else (a : option jsstr) (b : jsstr) : jsstr :=
  match a with
  | Some s => if truthy s then s else b
  | None => b
  end.

(** [!v] on a value that is a string, or [null] or [undefined]. *)
Definition falsy (v : option jsstr) : bool :=
  match v with Some s => negb (truthy s) | None => true end.

(** A string that is empty or consists of white space only. *)
Definition blank (s : jsstr) : Prop :=
  Forall (fun c => isWhiteSpace c = true) s.

End JsString.
Import JsString.

(* ===================================================================== *)
(** ** Arrays *)

Module JsArray.
Section Slice.
Context {A : Type}.

(** How [slice] reads an index: a negative one counts from the end, and
    the result is clamped to the array. *)
Definition relative (len i : Z) : Z :=
  if (i <? 0)%Z then Z.max (len + i) 0 else Z.min i len.

(** [l.slice(start, stop)] *)
Definition slice (start stop : Z) (l : list A) : list A :=
  let len := Z.of_nat (List.length l) in
  let k := relative len start in
  let final := relative len stop in
  firstn (Z.to_nat (Z.max (final - k) 0)) (skipn (Z.to_nat k) l).

End Slice.
End JsArray.
Import JsArray.

(* ===================================================================== *)
(** ** Data model *)

Inductive Sender := User | Assistant.
Inductive Status := Sending | Sent | Error.

(** A [Date]: [new Date()] read off the clock, or [new Date(v)] built from
    the response's [timestamp] field ([None] when the field is absent). *)
Inductive Date :=
| DateNow (clock : N)
| DateOf (v : option jsstr).

(** A value of a result cell. Numbers are kept as integers; nothing below
    looks inside a number. *)
Inductive scalar :=
| SNull
| SBool (b : bool)
| SNum (z : Z)
| SStr (s : jsstr).

(** [query_results] of the response. The render function tests each field
    before using it, so each may be absent. *)
Record query_results := {
  columns : option (list jsstr);
  data : option (list (list scalar));
  row_count : option Z
}.

(** [interface Message] *)
Record Message := {
  id : jsstr;
  content : jsstr;
  sender : Sender;
  timestamp : Date;
  status : option Status;
  sql : option jsstr;
  results : option query_results
}.

(** [{ ...m, status: st }] *)
Definition with_status (m : Message) (st : Status) : Message :=
  {| id := id m; content := content m; sender := sender m;
     timestamp := timestamp m; status := Some st;
     sql := sql m; results := results m |}.

(** The JSON body of the outbound POST to [/api/genie/send-message]. *)
Record request := {
  req_content : jsstr;
  req_conversation_id : option jsstr
}.

(** The JSON body of a 2xx response. *)
Record success_body := {
  r_content : jsstr;
  r_conversation_id : option jsstr;
  r_message_id : option jsstr;
  r_timestamp : option jsstr;
  r_sql_query : option jsstr;
  r_query_results : option query_results
}.

(** The JSON body of a non-2xx response. *)
Record error_body := { detail : option jsstr }.

(** [await response.json()]: the body parses, or the promise rejects with
    an error carrying [message]. *)
Inductive json_result (A : Type) :=
| JsonRejects (message : jsstr)
| JsonResolves (body : A).
Arguments JsonRejects {A} message.
Arguments JsonResolves {A} body.

(** How the outbound call settles: [fetch] rejects (transport error), or a
    response arrives with [response.ok] false or true. *)
Inductive outcome :=
| FetchRejects (message : jsstr)
| NotOk (body : json_result error_body)
| Ok (body : json_result success_body).

(** A call of [sendMessage] suspended at its [await]: the constants of its
    closure that the continuation reads. *)
Record exchange := {
  userMessage : Message;
  seenConversationId : option jsstr
}.

(** The component state, and the suspended calls of [sendMessage]. *)
Record state := {
  messages : list Message;
  input : jsstr;
  isLoading : bool;
  conversationId : option jsstr;
  error : option jsstr;
  inflight : list exchange
}.

Definition welcome_text : jsstr :=
  lit "Hello! I'm your Databricks Genie assistant. I can help you analyze data, write SQL queries, and provide insights. How can I help you today?".

(** The message the session is seeded with; [mounted] is the clock at mount. *)
Definition welcome (mounted : N) : Message :=
  {| id := lit "1"; content := welcome_text; sender := Assistant;
     timestamp := DateNow mounted; status := None; sql := None;
     results := None |}.

(** The [useState] initial values. *)
Definition init (mounted : N) : state :=
  {| messages := [welcome mounted]; input := []; isLoading := false;
     conversationId := None; error := None; inflight := [] |}.

(* ===================================================================== *)
(** ** The controller: [sendMessage] *)

Definition generic_error : jsstr := lit "Failed to send message".

(** [sendMessage] up to its [await]: the guard, the provisional message,
    the four state updates and the one outbound request. [stamp] is
    [Date.now()], [clock] is [new Date()]. *)
Definition sendMessage (stamp clock : N) (s : state) : state * list request :=
  if negb (truthy (trim (input s))) || isLoading s then (s, [])
  else
    let userMessage :=
      {| id := toString stamp; content := trim (input s); sender := User;
         timestamp := DateNow clock; status := Some Sending;
         sql := None; results := None |} in
    ({| messages := messages s ++ [userMessage];
        input := [];
        isLoading := true;
        conversationId := conversationId s;
        error := None;
        inflight := inflight s
                    ++ [{| userMessage := userMessage;
                           seenConversationId := conversationId s |}] |},
     [{| req_content := content userMessage;
         req_conversation_id := conversationId s |}]).

(** The [try] block after the request was issued: [inl message] when an
    error with that message is thrown, [inr s'] when the block completes. *)
Definition try_block (e : exchange) (o : outcome) (stamp : N) (s : state)
  : jsstr + state :=
  match o with
  | FetchRejects message => inl message
  | NotOk (JsonRejects message) => inl message
  | NotOk (JsonResolves errorData) =>
      inl (or_else (detail errorData) generic_error)
  | Ok (JsonRejects message) => inl message
  | Ok (JsonResolves data) =>
      let conversationId' :=
        if falsy (seenConversationId e)
           && negb (falsy (r_conversation_id data))
        then r_conversation_id data
        else conversationId s in
      let assistantMessage :=
        {| id := or_else (r_message_id data) (toString stamp);
           content := r_content data;
           sender := Assistant;
           timestamp := DateOf (r_timestamp data);
           status := None;
           sql := r_sql_query data;
           results := r_query_results data |} in
      inr {| messages := slice 0 (-1) (messages s)
                         ++ [with_status (userMessage e) Sent;
                             assistantMessage];
             input := input s;
             isLoading := isLoading s;
             conversationId := conversationId';
             error := error s;
             inflight := inflight s |}
  end.

(** The [catch] block. *)
Definition catch_block (e : exchange) (message : jsstr) (s : state) : state :=
  {| messages := slice 0 (-1) (messages s)
                 ++ [with_status (userMessage e) Error];
     input := input s;
     isLoading := isLoading s;
     conversationId := conversationId s;
     error := Some (or_else (Some message) generic_error);
     inflight := inflight s |}.

(** The [finally] block. *)
Definition finally_block (s : state) : state :=
  {| messages := messages s; input := input s; isLoading := false;
     conversationId := conversationId s; error := error s;
     inflight := inflight s |}.

(** The continuation of [sendMessage] once its outbound call has settled. *)
Definition resume (e : exchange) (o : outcome) (stamp : N) (s : state) : state :=
  finally_block
    match try_block e o stamp s with
    | inr s' => s'
    | inl message => catch_block e message s
    end.

(* ===================================================================== *)
(** ** The session as a transition system *)

(** What can happen to a mounted component: the input box changes (typing,
    or a suggested question is clicked), [sendMessage] is called (button
    or Enter), or the outbound call of the [k]-th suspended [sendMessage]
    settles. *)
Inductive event :=
| SetInput (text : jsstr)
| SendMessage (stamp clock : N)
| Settle (k : nat) (o : outcome) (stamp : N).

Fixpoint drop_nth {A} (k : nat) (l : list A) : list A :=
  match l, k with
  | [], _ => []
  | _ :: l', O => l'
  | x :: l', S k' => x :: drop_nth k' l'
  end.

Definition set_input (text : jsstr) (s : state) : state :=
  {| messages := messages s; input := text; isLoading := isLoading s;
     conversationId := conversationId s; error := error s;
     inflight := inflight s |}.

Definition set_inflight (l : list exchange) (s : state) : state :=
  {| messages := messages s; input := input s; isLoading := isLoading s;
     conversationId := conversationId s; error := error s;
     inflight := l |}.

(** One event: the next state and the requests sent out. *)
Definition step (s : state) (ev : event) : state * list request :=
  match ev with
  | SetInput text => (set_input text s, [])
  | SendMessage stamp clock => sendMessage stamp clock s
  | Settle k o stamp =>
      match nth_error (inflight s) k with
      | Some e => (resume e o stamp (set_inflight (drop_nth k (inflight s)) s), [])
      | None => (s, [])
      end
  end.

(** A sequence of events: the final state and all requests, in order. *)
Fixpoint run (s : state) (evs : list event) : state * list request :=
  match evs with
  | [] => (s, [])
  | ev :: evs' =>
      let (s1, out1) := step s ev in
      let (s2, out2) := run s1 evs' in
      (s2, out1 ++ out2)
  end.

(** The states a session started at [mounted] can be in. *)
Inductive reachable (mounted : N) : state -> Prop :=
| reach_init : reachable mounted (init mounted)
| reach_step s ev : reachable mounted s -> reachable mounted (fst (step s ev)).
Arguments reach_step {mounted s} ev _.

(* ===================================================================== *)
(** ** Rendering a result payload *)

Module Render.

(** A table cell: [String(value)], or the italic [null] placeholder. *)
Inductive cell :=
| CellText (value : scalar)
| CellNull.

Definition render_cell (value : scalar) : cell :=
  match value with
  | SNull => CellNull
  | _ => CellText value
  end.

(** A child of a JSX element: a text, or an expression that evaluates to
    a number or to [undefined] (which renders nothing). *)
Inductive child :=
| Text (s : jsstr)
| Num (v : option Z).

Record table := {
  thead : list jsstr;
  tbody : list (list cell);
  footer : option (list child)
}.

Inductive results_body :=
| TableView (t : table)
| JsonDump (r : query_results).

(** The "Query Results" card: the row-count badge of its header, if any,
    and its body. *)
Record card := {
  badge : option (list child);
  body : results_body
}.

(** The block under the comment [Query Results] of the render function. *)
Definition render_results (results : option query_results) : option card :=
  match results with
  | None => None
  | Some r =>
      Some
        {| badge :=
             match row_count r with
             | Some n =>
                 Some [Num (Some n); Text (lit " row");
                       Text (if (n =? 1)%Z then [] else lit "s")]
             | None => None
             end;
           body :=
             match columns r, data r with
             | Some cols, Some rows =>
                 TableView
                   {| thead := cols;
                      tbody := map (map render_cell) (slice 0 10 rows);
                      footer :=
                        if (10 <? List.length rows)%nat
                        then Some [Text (lit "Showing first 10 rows of ");
                                   Num (row_count r);
                                   Text (lit " total")]
                        else None |}
             | _, _ => JsonDump r
             end |}
  end.

End Render.


(* ===================================================================== *)
(** ** Vocabulary of the properties *)

(** A message that is not waiting for a response. *)
Definition settled (m : Message) : Prop := status m <> Some Sending.

(** An exchange is outstanding. *)
Definition pending (s : state) : Prop := inflight s <> [].

(** What holds of every state of a session: at most one call of
    [sendMessage] is suspended; [isLoading] tells whether one is; the
    welcome message heads the sequence; the provisional message of the
    suspended call is the last one and the only one still [Sending]; the
    suspended call saw the current conversation identifier; and the
    conversation identifier is never the empty string. *)
Definition Inv (mounted : N) (s : state) : Prop :=
  conversationId s <> Some []
  /\ match inflight s with
     | [] =>
         isLoading s = false
         /\ exists rest, messages s = welcome mounted :: rest
                         /\ Forall settled rest
     | [e] =>
         isLoading s = true
         /\ seenConversationId e = conversationId s
         /\ sender (userMessage e) = User
         /\ status (userMessage e) = Some Sending
         /\ exists pre, messages s = welcome mounted :: pre ++ [userMessage e]
                        /\ Forall settled pre
     | _ :: _ :: _ => False
     end.

(** An exchange that ends in the [catch] block: anything but a 2xx response
    with a readable body. *)
Definition failed (o : outcome) : Prop :=
  match o with
  | Ok (JsonResolves _) => False
  | _ => True
  end.

(** The session error after the [k]-th outstanding exchange settled with [o]. *)
Definition error_after (s : state) (k : nat) (o : outcome) (stamp : N)
  : option jsstr :=
  error (fst (step s (Settle k o stamp))).

(** The [detail] field of the response, when there is a response whose
    body could be read and it has one. *)
Definition detail_of (o : outcome) : option jsstr :=
  match o with
  | NotOk (JsonResolves errorData) => detail errorData
  | _ => None
  end.

(** An event that completes an exchange successfully. *)
Definition successful (ev : event) : bool :=
  match ev with
  | Settle _ (Ok (JsonResolves _)) _ => true
  | _ => false
  end.

(** A successful exchange whose response carries a conversation identifier
    that is not the empty string. *)
Definition adopting (ev : event) : bool :=
  match ev with
  | Settle _ (Ok (JsonResolves reply)) _ =>
      negb (falsy (r_conversation_id reply))
  | _ => false
  end.

(** The request [r] was sent with conversation identifier [c]. *)
Definition carries (c : option jsstr) (r : request) : Prop :=
  req_conversation_id r = c.

(* ===================================================================== *)
(** ** Scenarios *)

(** The response of the first scenario: a reply with its conversation
    identifier, the generated query and a two-row table. *)
Definition tables_body : success_body :=
  {| r_content := lit "Here are your tables";
     r_conversation_id := Some (lit "abc123");
     r_message_id := None;
     r_timestamp := None;
     r_sql_query := Some (lit "SHOW TABLES");
     r_query_results :=
       Some {| columns := Some [lit "name"];
               data := Some [[SStr (lit "orders")]; [SStr (lit "users")]];
               row_count := Some 2%Z |} |}.

(** A 2xx response that carries no conversation identifier. *)
Definition plain_body : success_body :=
  {| r_content := lit "Hello"; r_conversation_id := None;
     r_message_id := None; r_timestamp := None; r_sql_query := None;
     r_query_results := None |}.

(** A fresh session whose first question is on its way. *)
Definition busy_state : state :=
  fst (run (init 0) [SetInput (lit "What tables are available?");
                     SendMessage 1000 1001]).

(** A session that adopted ["abc123"] and has a second exchange pending. *)
Definition connected_busy_state : state :=
  fst (run busy_state [Settle 0 (Ok (JsonResolves tables_body)) 3000;
                       SetInput (lit "Show me the schema of a table");
                       SendMessage 4000 4001]).

(** The exchange a state with one outstanding exchange is waiting for. *)
Definition hd_exchange (s : state) : exchange :=
  hd {| userMessage := welcome 0; seenConversationId := None |} (inflight s).

(** A payload of [n] one-column rows with [row_count] [n]. *)
Definition payload (n : nat) : query_results :=
  {| columns := Some [lit "name"];
     data := Some (repeat [SStr (lit "orders")] n);
     row_count := Some (Z.of_nat n) |}.

(* ===================================================================== *)
(** ** The rest of the component: SQL toggles, keyboard, the view *)

(** [a === b] on strings. *)
Fixpoint jsstr_eqb (a b : jsstr) : bool :=
  match a, b with
  | [], [] => true
  | x :: a', y :: b' => (x =? y)%N && jsstr_eqb a' b'
  | _, _ => false
  end.

(** [Set<string>]: the elements in insertion order, each once. *)
Module JsSet.

Definition t := list jsstr.

Definition has (x : jsstr) (s : t) : bool := existsb (jsstr_eqb x) s.

Definition add (x : jsstr) (s : t) : t := if has x s then s else s ++ [x].

Definition delete (x : jsstr) (s : t) : t :=
  filter (fun y => negb (jsstr_eqb x y)) s.

End JsSet.

(** The updater [toggleSqlVisibility] passes to [setShowSqlFor]; [newSet]
    starts as a copy of [prev]. *)
Definition toggleSqlVisibility (messageId : jsstr) (prev : JsSet.t) : JsSet.t :=
  let newSet := prev in
  if JsSet.has messageId newSet
  then JsSet.delete messageId newSet
  else JsSet.add messageId newSet.

(** The fields of a [React.KeyboardEvent] that [handleKeyPress] reads. *)
Record keyboard_event := {
  key : jsstr;
  shiftKey : bool
}.

(** [handleKeyPress]: whether [preventDefault] was called, and what the
    call did to the session. *)
Definition handleKeyPress (e : keyboard_event) (stamp clock : N) (s : state)
  : bool * (state * list request) :=
  if jsstr_eqb (key e) (lit "Enter") && negb (shiftKey e)
  then (true, sendMessage stamp clock s)
  else (false, (s, [])).

Definition suggestedQuestions : list jsstr :=
  [lit "What tables are available?";
   lit "Show me the schema of a table";
   lit "Analyze data trends";
   lit "Help me write a SQL query"].

(** What the component returns, as far as it depends on the state. *)
Module Ui.

(** The block under the comment [SQL Query]: the chevron of its button
    points down when the query is shown. *)
Record sql_view := {
  chevron_down : bool;
  code : option jsstr
}.

(** One message of the list: the row is laid out for a user message or for
    an assistant message, the bubble holds the content and at most one of
    the two status icons, then come the query, the result card and the
    time of day of its timestamp. *)
Record bubble := {
  react_key : jsstr;
  user_side : bool;
  text : jsstr;
  spinner : bool;
  alert : bool;
  sql_view_of : option sql_view;
  card_of : option Render.card;
  time_of : Date
}.

Record view := {
  header_status : jsstr;
  bubbles : list bubble;
  thinking : bool;
  error_banner : option jsstr;
  suggestions : option (list jsstr);
  input_value : jsstr;
  input_disabled : bool;
  send_disabled : bool;
  send_spinner : bool
}.

Definition is_status (st : Status) (v : option Status) : bool :=
  match v, st with
  | Some Sending, Sending | Some Sent, Sent | Some Error, Error => true
  | _, _ => false
  end.

Definition is_user (m : Message) : bool :=
  match sender m with User => true | Assistant => false end.

Definition render_sql (showSqlFor : JsSet.t) (m : Message) : option sql_view :=
  match sql m with
  | Some q =>
      if truthy q
      then Some {| chevron_down := JsSet.has (id m) showSqlFor;
                   code := if JsSet.has (id m) showSqlFor then Some q else None |}
      else None
  | None => None
  end.

Definition render_message (showSqlFor : JsSet.t) (m : Message) : bubble :=
  {| react_key := id m;
     user_side := is_user m;
     text := content m;
     spinner := is_status Sending (status m);
     alert := is_status Error (status m);
     sql_view_of := render_sql showSqlFor m;
     card_of := Render.render_results (results m);
     time_of := timestamp m |}.

(** The JSX the component returns. *)
Definition render (s : state) (showSqlFor : JsSet.t) : view :=
  {| header_status :=
       if falsy (conversationId s) then lit "New Conversation"
       else lit "Connected";
     bubbles := map (render_message showSqlFor) (messages s);
     thinking := isLoading s;
     error_banner :=
       match error s with
       | Some message => if truthy message then Some message else None
       | None => None
       end;
     suggestions :=
       if (List.length (messages s) =? 1)%nat then Some suggestedQuestions
       else None;
     input_value := input s;
     input_disabled := isLoading s;
     send_disabled := negb (truthy (trim (input s))) || isLoading s;
     send_spinner := isLoading s |}.

End Ui.

(* ===================================================================== *)
(** ** Vocabulary of the further properties *)

(** The settled part of a conversation: each user message either failed,
    and then no reply follows it, or was sent, and then its reply follows
    it directly. *)
Inductive turns : list Message -> Prop :=
| turns_nil : turns []
| turns_error u rest :
    sender u = User -> status u = Some Error ->
    turns rest -> turns (u :: rest)
| turns_sent u a rest :
    sender u = User -> status u = Some Sent ->
    sender a = Assistant -> status a = None ->
    turns rest -> turns (u :: a :: rest).

(** The contents of the user messages of a sequence, in order. *)
Definition user_contents (l : list Message) : list jsstr :=
  map content (filter Ui.is_user l).

(** How often the input box was set in a sequence of events. *)
Fixpoint inputs_set (evs : list event) : nat :=
  match evs with
  | [] => 0
  | SetInput _ :: evs' => S (inputs_set evs')
  | _ :: evs' => inputs_set evs'
  end.

(** The status of the last message, if there is one and it has one. *)
Definition last_status (l : list Message) : option Status :=
  match rev l with
  | m :: _ => status m
  | [] => None
  end.

(** A user message as [sendMessage] makes them: its content is not empty
    and has no white space at either end, and it has neither a query nor a
    result payload. *)
Definition tidy (m : Message) : Prop :=
  sender m = User ->
  content m <> [] /\ trim (content m) = content m
  /\ sql m = None /\ results m = None.

(* ===================================================================== *)
(** ** Tactics *)

(** Split on the guard of [sendMessage]. *)
Ltac guard_cases s :=
  unfold sendMessage;
  destruct (negb (truthy (trim (input s))) || isLoading s) eqn:?G.

(** Split on the ways an outbound call settles. *)
Ltac outcome_cases o :=
  destruct o as [?message | [?message | ?errorData] | [?message | ?reply]].

(** Split on how many exchanges are outstanding, given the invariant. *)
Ltac inflight_cases s I :=
  destruct (inflight s) as [|?e [|?e' ?l]] eqn:?Fl; cbn beta iota in I;
  [ | | contradiction].

(* ===================================================================== *)
(** ** Examples *)

Example trim_example :
  trim (lit "  What tables?  ") = lit "What tables?".
Proof. reflexivity. Qed.

Example trim_keeps_inner_space :
  trim [9; 104; 32; 105; 160; 10]%N = [104; 32; 105]%N.
Proof. reflexivity. Qed.

Example toString_example : toString 1700000000000 = lit "1700000000000".
Proof. reflexivity. Qed.

Example slice_examples :
  slice 0 (-1) [1; 2; 3] = [1; 2]
  /\ slice 0 (-1) (@nil nat) = []
  /\ slice 0 10 [1; 2; 3] = [1; 2; 3]
  /\ slice 1 (-1) [1; 2; 3; 4] = [2; 3].
Proof. repeat split. Qed.

(* ===================================================================== *)
(** ** Facts about [slice] *)

Module SliceFacts.
Section Slice.
Context {A : Type}.

Lemma slice_0_neg1 (l : list A) :
  slice 0 (-1) l = firstn (List.length l - 1) l.
Proof.
  unfold slice, relative.
  change (0 <? 0)%Z with false; change (-1 <? 0)%Z with true.
  cbv iota. rewrite Z.min_l by lia. cbn [Z.to_nat skipn].
  f_equal. lia.
Qed.

Lemma slice_0_neg1_snoc (l : list A) (x : A) :
  slice 0 (-1) (l ++ [x]) = l.
Proof.
  rewrite slice_0_neg1, length_app; cbn [List.length].
  replace (List.length l + 1 - 1) with (List.length l + 0) by lia.
  rewrite firstn_app_2; cbn [firstn]. apply app_nil_r.
Qed.

Lemma slice_0_neg1_length (l : list A) :
  List.length (slice 0 (-1) l) = List.length l - 1.
Proof. rewrite slice_0_neg1, length_firstn; lia. Qed.

Lemma nth_error_slice_0_neg1 (l tail : list A) i :
  i < List.length l - 1 ->
  nth_error (slice 0 (-1) l ++ tail) i = nth_error l i.
Proof.
  intros H. rewrite nth_error_app1 by (rewrite slice_0_neg1_length; exact H).
  rewrite slice_0_neg1, nth_error_firstn.
  apply Nat.ltb_lt in H; now rewrite H.
Qed.

Lemma slice_0_10 (l : list A) : slice 0 10 l = firstn 10 l.
Proof.
  unfold slice, relative.
  change (0 <? 0)%Z with false; change (10 <? 0)%Z with false.
  cbv iota. rewrite (Z.min_l 0) by lia. cbn [Z.to_nat skipn].
  destruct (Z.min_spec 10 (Z.of_nat (List.length l))) as [[H ->]|[H ->]].
  - reflexivity.
  - replace (Z.to_nat (Z.max (Z.of_nat (List.length l) - 0) 0))
      with (List.length l) by lia.
    rewrite !firstn_all2; trivial; lia.
Qed.

End Slice.
End SliceFacts.
Import SliceFacts.

(* ===================================================================== *)
(** ** Facts about [trim] *)

Module TrimFacts.

Lemma trimStart_blank {s} : blank s -> trimStart s = [].
Proof.
  induction 1 as [|c s Hc _ IH]; cbn [trimStart]; [reflexivity|].
  now rewrite Hc.
Qed.

Lemma trimStart_split s : exists l, s = l ++ trimStart s /\ blank l.
Proof.
  induction s as [|c s [l [E B]]]; cbn [trimStart].
  - exists []; split; [reflexivity | constructor].
  - destruct (isWhiteSpace c) eqn:Hc.
    + exists (c :: l); split; [cbn; congruence | now constructor].
    + exists []; split; [reflexivity | constructor].
Qed.

Lemma trimStart_head {s c t} : trimStart s = c :: t -> isWhiteSpace c = false.
Proof.
  induction s as [|d s IH]; cbn [trimStart]; [discriminate|].
  destruct (isWhiteSpace d) eqn:Hd; [exact IH|].
  intros [= <- _]; exact Hd.
Qed.

Lemma trimStart_fixed c t : isWhiteSpace c = false -> trimStart (c :: t) = c :: t.
Proof. intros H; cbn [trimStart]; now rewrite H. Qed.

Lemma trimStart_snoc s c :
  isWhiteSpace c = false -> trimStart (s ++ [c]) = trimStart s ++ [c].
Proof.
  intros Hc; induction s as [|d s IH]; cbn [trimStart app].
  - now rewrite Hc.
  - destruct (isWhiteSpace d); [exact IH | reflexivity].
Qed.

Lemma blank_rev s : blank s -> blank (rev s).
Proof. unfold blank; rewrite !Forall_forall; intros H c Hin; apply H, in_rev, Hin. Qed.

Lemma trimEnd_blank s : blank s -> trimEnd s = [].
Proof. intros B; unfold trimEnd; now rewrite trimStart_blank by now apply blank_rev. Qed.

Lemma trimEnd_split s : exists r, s = trimEnd s ++ r /\ blank r.
Proof.
  destruct (trimStart_split (rev s)) as [l [E B]].
  exists (rev l); split; [|now apply blank_rev].
  unfold trimEnd; rewrite <- rev_app_distr, <- E; symmetry; apply rev_involutive.
Qed.

Lemma trimEnd_last s t c : trimEnd s = t ++ [c] -> isWhiteSpace c = false.
Proof.
  unfold trimEnd; intros E.
  apply (f_equal (@rev N)) in E; rewrite rev_involutive, rev_app_distr in E.
  exact (trimStart_head E).
Qed.

Lemma trimEnd_cons c t : isWhiteSpace c = false -> trimEnd (c :: t) = c :: trimEnd t.
Proof.
  intros Hc; unfold trimEnd; cbn [rev].
  now rewrite trimStart_snoc, rev_app_distr.
Qed.

(** A blank string trims to the empty string. *)
Lemma trim_blank {s} : blank s -> trim s = [].
Proof. intros B; unfold trim; now rewrite trimStart_blank. Qed.

(** A string that trims to the empty string is blank. *)
Lemma trim_nil_blank s : trim s = [] -> blank s.
Proof.
  unfold trim; intros E.
  destruct (trimStart_split s) as [l [Es Bl]].
  destruct (trimStart s) as [|c t] eqn:Et.
  - rewrite Es, app_nil_r; exact Bl.
  - rewrite trimEnd_cons in E by exact (trimStart_head Et); discriminate.
Qed.

(** [trim] removes a blank prefix and a blank suffix, and what is left
    neither starts nor ends with white space. *)
Lemma trim_spec s :
  (exists l r, s = l ++ trim s ++ r /\ blank l /\ blank r)
  /\ (forall c t, trim s = c :: t -> isWhiteSpace c = false)
  /\ (forall t c, trim s = t ++ [c] -> isWhiteSpace c = false).
Proof.
  unfold trim; split; [|split].
  - destruct (trimStart_split s) as [l [El Bl]].
    destruct (trimEnd_split (trimStart s)) as [r [Er Br]].
    exists l, r; split; [|split; assumption].
    now rewrite <- Er.
  - intros c t E.
    destruct (trimStart s) as [|d u] eqn:Et; [discriminate|].
    pose proof (trimStart_head Et) as Hd.
    rewrite trimEnd_cons in E by exact Hd.
    now injection E as <- _.
  - intros t c; apply trimEnd_last.
Qed.

End TrimFacts.
Import TrimFacts.


(* ===================================================================== *)
(** ** The session invariant *)

Section Invariant.
Variable mounted : N.

Lemma Inv_init : Inv mounted (init mounted).
Proof.
  split; [discriminate|]. cbn. split; [reflexivity|].
  exists []; split; [reflexivity | constructor].
Qed.

Lemma settled_with_status m st : st <> Sending -> settled (with_status m st).
Proof. unfold settled; cbn; congruence. Qed.

Lemma Inv_sendMessage s stamp clock :
  Inv mounted s -> Inv mounted (fst (sendMessage stamp clock s)).
Proof.
  intros I; guard_cases s; [exact I|].
  apply orb_false_elim in G as [_ L].
  destruct I as [C I]; split; [exact C|]; cbn.
  inflight_cases s I; cbn.
  - destruct I as [_ [rest [E F]]].
    repeat split; try reflexivity.
    exists rest; split; [now rewrite E | exact F].
  - destruct I as [L' _]; congruence.
Qed.

Lemma Inv_resume s e o stamp :
  Inv mounted s -> inflight s = [e] ->
  Inv mounted (resume e o stamp (set_inflight [] s)).
Proof.
  intros [C I] E; rewrite E in I.
  destruct I as [_ [Seen [_ [_ [pre [M F]]]]]].
  assert (Sl : slice 0 (-1) (messages s) = welcome mounted :: pre).
  { rewrite M, app_comm_cons; apply slice_0_neg1_snoc. }
  assert (Caught : forall message,
             Inv mounted (finally_block (catch_block e message (set_inflight [] s)))).
  { intros message; split; [exact C|]; cbn; split; [reflexivity|].
    rewrite Sl. eexists; split; [reflexivity|].
    apply Forall_app; split; [exact F|].
    constructor; [|constructor]. apply settled_with_status; discriminate. }
  unfold resume.
  outcome_cases o; cbn [try_block]; try apply Caught.
  split; cbn.
  - destruct (falsy (seenConversationId e)); cbn; [|exact C].
    destruct (r_conversation_id reply) as [[|c cs]|]; cbn; try exact C.
    discriminate.
  - split; [reflexivity|]. rewrite Sl.
    eexists; split; [reflexivity|].
    apply Forall_app; split; [exact F|].
    constructor; [apply settled_with_status; discriminate|].
    constructor; [|constructor]. unfold settled; cbn; discriminate.
Qed.

Lemma Inv_step s ev : Inv mounted s -> Inv mounted (fst (step s ev)).
Proof.
  intros I; destruct ev as [text | stamp clock | k o stamp]; cbn [step].
  - exact I.
  - now apply Inv_sendMessage.
  - destruct (nth_error (inflight s) k) as [e|] eqn:N; [|exact I].
    cbn [fst].
    assert (E : inflight s = [e] /\ k = 0).
    { destruct I as [_ I]. inflight_cases s I.
      - destruct k; discriminate.
      - destruct k as [|k]; [|destruct k; discriminate].
        injection N as ->. now split. }
    destruct E as [E ->]. rewrite E; cbn [drop_nth].
    now apply Inv_resume.
Qed.

Lemma reachable_Inv s : reachable mounted s -> Inv mounted s.
Proof. induction 1; [apply Inv_init | now apply Inv_step]. Qed.

Lemma reachable_run s evs :
  reachable mounted s -> reachable mounted (fst (run s evs)).
Proof.
  revert s; induction evs as [|ev evs IH]; intros s R; cbn [run]; [exact R|].
  destruct (step s ev) as [s1 out1] eqn:E1.
  specialize (IH s1). destruct (run s1 evs) as [s2 out2]; cbn [fst] in *.
  apply IH. change s1 with (fst (s1, out1)); rewrite <- E1.
  now constructor.
Qed.

(** With nothing outstanding the session is not loading, and conversely. *)
Lemma reachable_idle s :
  reachable mounted s -> isLoading s = false -> inflight s = [].
Proof.
  intros R L; destruct (reachable_Inv s R) as [_ I].
  inflight_cases s I; [reflexivity|].
  destruct I as [L' _]; congruence.
Qed.

Lemma reachable_pending_loading s :
  reachable mounted s -> pending s -> isLoading s = true.
Proof.
  intros R P; destruct (reachable_Inv s R) as [_ I]; unfold pending in P.
  inflight_cases s I; [congruence | apply I].
Qed.

Lemma reachable_one_inflight s :
  reachable mounted s -> List.length (inflight s) <= 1.
Proof.
  intros R; destruct (reachable_Inv s R) as [_ I].
  inflight_cases s I; cbn; lia.
Qed.

Lemma reachable_pending_shape s e :
  reachable mounted s -> inflight s = [e] ->
  seenConversationId e = conversationId s
  /\ sender (userMessage e) = User
  /\ status (userMessage e) = Some Sending
  /\ exists pre, messages s = welcome mounted :: pre ++ [userMessage e]
                 /\ Forall settled pre.
Proof.
  intros R E; destruct (reachable_Inv s R) as [_ I]; rewrite E in I; apply I.
Qed.


Lemma reachable_welcome s :
  reachable mounted s -> hd_error (messages s) = Some (welcome mounted).
Proof.
  intros R; destruct (reachable_Inv s R) as [_ I].
  inflight_cases s I.
  - destruct I as [_ [rest [-> _]]]; reflexivity.
  - destruct I as [_ [_ [_ [_ [pre [-> _]]]]]]; reflexivity.
Qed.

End Invariant.

Lemma busy_state_reachable : reachable 0 busy_state.
Proof. apply reachable_run; constructor. Defined.

Lemma connected_busy_state_reachable : reachable 0 connected_busy_state.
Proof. apply reachable_run, busy_state_reachable. Defined.

(* ===================================================================== *)
(** ** The guard of [sendMessage] *)

(** The provisional message [sendMessage] builds. *)
Lemma sendMessage_accepts s stamp clock :
  trim (input s) <> [] ->
  isLoading s = false ->
  let um := {| id := toString stamp; content := trim (input s);
               sender := User; timestamp := DateNow clock;
               status := Some Sending; sql := None; results := None |} in
  step s (SendMessage stamp clock)
  = ({| messages := messages s ++ [um]; input := []; isLoading := true;
        conversationId := conversationId s; error := None;
        inflight := inflight s
                    ++ [{| userMessage := um;
                           seenConversationId := conversationId s |}] |},
     [{| req_content := trim (input s);
         req_conversation_id := conversationId s |}]).
Proof.
  intros T L; cbn [step]; unfold sendMessage. rewrite L.
  destruct (trim (input s)); [congruence | reflexivity].
Qed.

Lemma sendMessage_rejects s stamp clock :
  trim (input s) = [] \/ isLoading s = true ->
  step s (SendMessage stamp clock) = (s, []).
Proof.
  intros [T | L]; cbn [step]; unfold sendMessage.
  - now rewrite T.
  - now rewrite L, orb_true_r.
Qed.

(** C6: while an exchange is pending, a call of [sendMessage] changes
    nothing in the session (no message appended, nothing else touched) and
    sends no request; and no state of a session has more than one exchange
    outstanding. *)
Theorem submit_while_pending_is_noop mounted s stamp clock :
  reachable mounted s ->
  pending s ->
  step s (SendMessage stamp clock) = (s, [])
  /\ List.length (inflight s) <= 1
  /\ List.length (inflight (fst (step s (SendMessage stamp clock)))) <= 1.
Proof.
  intros R P.
  assert (E : step s (SendMessage stamp clock) = (s, [])).
  { apply sendMessage_rejects; right.
    now apply reachable_pending_loading with mounted. }
  rewrite E; cbn [fst].
  repeat split; now apply reachable_one_inflight with mounted.
Qed.

(** A pending state with text in the box: the call gets past the test of
    the input, and it is [isLoading] that stops it. *)
Lemma submit_while_pending_is_noop_witness :
  let s := fst (step busy_state (SetInput (lit "Show me the schema of a table"))) in
  (trim (input s) = lit "Show me the schema of a table"
   /\ isLoading s = true
   /\ List.length (inflight s) = 1)
  /\ step s (SendMessage 2000 2001) = (s, [])
  /\ List.length (inflight s) <= 1
  /\ List.length (inflight (fst (step s (SendMessage 2000 2001)))) <= 1.
Proof.
  split; [repeat split|].
  apply (submit_while_pending_is_noop 0
           (fst (step busy_state
                   (SetInput (lit "Show me the schema of a table"))))
           2000 2001).
  - exact (reach_step (SetInput (lit "Show me the schema of a table"))
             busy_state_reachable).
  - vm_compute; discriminate.
Defined.

(** C7: a call of [sendMessage] on an input that is empty or consists of
    white space only leaves the whole session state as it was, the message
    sequence included, and sends no request. *)
Theorem submit_blank_is_noop s stamp clock :
  blank (input s) ->
  step s (SendMessage stamp clock) = (s, [])
  /\ messages (fst (step s (SendMessage stamp clock))) = messages s.
Proof.
  intros B.
  assert (E : step s (SendMessage stamp clock) = (s, []))
    by (apply sendMessage_rejects; left; now apply trim_blank).
  now rewrite E.
Qed.

Lemma submit_blank_is_noop_witness :
  let s := set_input [32; 9; 10; 160]%N (init 0) in
  step s (SendMessage 5 5) = (s, [])
  /\ messages (fst (step s (SendMessage 5 5))) = messages s.
Proof.
  apply submit_blank_is_noop.
  repeat constructor.
Defined.

(** C9: when [sendMessage] accepts a submission (trimmed input not empty,
    not loading), the one message it appends and the one request it sends
    both carry the trimmed input, which is the raw input less a prefix and
    a suffix of white space, and itself neither starts nor ends with white
    space. *)
Theorem accepted_content_is_trimmed s stamp clock :
  trim (input s) <> [] ->
  isLoading s = false ->
  exists um,
    step s (SendMessage stamp clock)
    = ({| messages := messages s ++ [um]; input := []; isLoading := true;
          conversationId := conversationId s; error := None;
          inflight := inflight s
                      ++ [{| userMessage := um;
                             seenConversationId := conversationId s |}] |},
       [{| req_content := trim (input s);
           req_conversation_id := conversationId s |}])
    /\ sender um = User
    /\ content um = trim (input s)
    /\ (exists l r, input s = l ++ content um ++ r /\ blank l /\ blank r)
    /\ (forall c t, content um = c :: t -> isWhiteSpace c = false)
    /\ (forall t c, content um = t ++ [c] -> isWhiteSpace c = false).
Proof.
  intros T L. eexists.
  split; [exact (sendMessage_accepts s stamp clock T L)|].
  split; [reflexivity|]. split; [reflexivity|]. apply trim_spec.
Qed.

Lemma accepted_content_is_trimmed_witness :
  let s := set_input (lit "  show tables ") (init 0) in
  exists um,
    step s (SendMessage 7 8)
    = ({| messages := messages s ++ [um]; input := []; isLoading := true;
          conversationId := conversationId s; error := None;
          inflight := inflight s
                      ++ [{| userMessage := um;
                             seenConversationId := conversationId s |}] |},
       [{| req_content := trim (input s);
           req_conversation_id := conversationId s |}])
    /\ sender um = User
    /\ content um = trim (input s)
    /\ (exists l r, input s = l ++ content um ++ r /\ blank l /\ blank r)
    /\ (forall c t, content um = c :: t -> isWhiteSpace c = false)
    /\ (forall t c, content um = t ++ [c] -> isWhiteSpace c = false).
Proof.
  apply accepted_content_is_trimmed.
  - vm_compute; discriminate.
  - reflexivity.
Defined.

Example accepted_content_example :
  let s := set_input (lit "  show tables ") (init 0) in
  map content (messages (fst (step s (SendMessage 7 8))))
  = [welcome_text; lit "show tables"]
  /\ map req_content (snd (step s (SendMessage 7 8))) = [lit "show tables"].
Proof. split; reflexivity. Qed.

(* ===================================================================== *)
(** ** Reconciliation *)

Lemma failed_caught e o stamp s :
  failed o -> exists message, try_block e o stamp s = inl message.
Proof.
  outcome_cases o; cbn; intros F; try contradiction; eexists; reflexivity.
Qed.

Lemma settle_pending s e o stamp :
  inflight s = [e] ->
  step s (Settle 0 o stamp) = (resume e o stamp (set_inflight [] s), []).
Proof. intros E; cbn [step]; rewrite E; reflexivity. Qed.

(** C2: when the pending exchange succeeds, the message sequence, which
    was [pre ++ [um]] with [um] the pending user message, becomes
    [pre ++ [um'; a]] where [um'] has status [Sent] and every other field
    as in [um], and [a] is one assistant message, without a status, whose
    content, generated query and result payload are those of the
    response. *)
Theorem success_reconciles mounted s e reply stamp :
  reachable mounted s ->
  inflight s = [e] ->
  exists pre a,
    messages s = pre ++ [userMessage e]
    /\ sender (userMessage e) = User
    /\ status (userMessage e) = Some Sending
    /\ messages (fst (step s (Settle 0 (Ok (JsonResolves reply)) stamp)))
       = pre ++ [{| id := id (userMessage e);
                    content := content (userMessage e);
                    sender := sender (userMessage e);
                    timestamp := timestamp (userMessage e);
                    status := Some Sent;
                    sql := sql (userMessage e);
                    results := results (userMessage e) |}; a]
    /\ sender a = Assistant
    /\ status a = None
    /\ content a = r_content reply
    /\ sql a = r_sql_query reply
    /\ results a = r_query_results reply.
Proof.
  intros R E.
  destruct (reachable_pending_shape mounted s e R E) as [_ [U [St [pre [M _]]]]].
  rewrite (settle_pending s e _ _ E); cbn.
  exists (welcome mounted :: pre); eexists.
  split; [exact M|]. split; [exact U|]. split; [exact St|].
  rewrite M at 1. rewrite app_comm_cons, slice_0_neg1_snoc.
  repeat split; reflexivity.
Qed.

Lemma success_reconciles_witness :
  exists pre a,
    messages busy_state = pre ++ [userMessage (hd_exchange busy_state)]
    /\ sender (userMessage (hd_exchange busy_state)) = User
    /\ status (userMessage (hd_exchange busy_state)) = Some Sending
    /\ messages (fst (step busy_state (Settle 0 (Ok (JsonResolves tables_body)) 3000)))
       = pre ++ [{| id := id (userMessage (hd_exchange busy_state));
                    content := content (userMessage (hd_exchange busy_state));
                    sender := sender (userMessage (hd_exchange busy_state));
                    timestamp := timestamp (userMessage (hd_exchange busy_state));
                    status := Some Sent;
                    sql := sql (userMessage (hd_exchange busy_state));
                    results := results (userMessage (hd_exchange busy_state)) |};
                 a]
    /\ sender a = Assistant
    /\ status a = None
    /\ content a = r_content tables_body
    /\ sql a = r_sql_query tables_body
    /\ results a = r_query_results tables_body.
Proof.
  apply (success_reconciles 0 busy_state).
  - exact busy_state_reachable.
  - reflexivity.
Defined.

(** The first scenario, run from a fresh session. *)
Example tables_scenario :
  let s := fst (run (init 0) [SetInput (lit "What tables are available?");
                              SendMessage 1000 1001;
                              Settle 0 (Ok (JsonResolves tables_body)) 3000]) in
  conversationId s = Some (lit "abc123")
  /\ map (fun m => (sender m, status m, content m)) (messages s)
     = [(Assistant, None, welcome_text);
        (User, Some Sent, lit "What tables are available?");
        (Assistant, None, lit "Here are your tables")]
  /\ map sql (messages s) = [None; None; Some (lit "SHOW TABLES")]
  /\ map results (messages s) = [None; None; r_query_results tables_body]
  /\ isLoading s = false /\ error s = None /\ inflight s = [].
Proof. repeat split. Qed.

(** C3: when the pending exchange fails, the message sequence, which was
    [pre ++ [um]] with [um] the pending user message, becomes
    [pre ++ [um']] where [um'] has status [Error] and every other field as
    in [um]; nothing is appended (so no assistant message), and the
    conversation identifier is what it was. *)
Theorem failure_reconciles mounted s e o stamp :
  reachable mounted s ->
  inflight s = [e] ->
  failed o ->
  exists pre,
    messages s = pre ++ [userMessage e]
    /\ sender (userMessage e) = User
    /\ messages (fst (step s (Settle 0 o stamp)))
       = pre ++ [{| id := id (userMessage e);
                    content := content (userMessage e);
                    sender := sender (userMessage e);
                    timestamp := timestamp (userMessage e);
                    status := Some Error;
                    sql := sql (userMessage e);
                    results := results (userMessage e) |}]
    /\ List.length (messages (fst (step s (Settle 0 o stamp))))
       = List.length (messages s)
    /\ conversationId (fst (step s (Settle 0 o stamp))) = conversationId s.
Proof.
  intros R E F.
  destruct (reachable_pending_shape mounted s e R E) as [_ [U [_ [pre [M _]]]]].
  rewrite (settle_pending s e _ _ E); cbn [fst]; unfold resume.
  destruct (failed_caught e o stamp (set_inflight [] s) F) as [message ->].
  exists (welcome mounted :: pre); cbn.
  split; [exact M|]. split; [exact U|].
  rewrite M, app_comm_cons, slice_0_neg1_snoc.
  split; [reflexivity|]. split; [|reflexivity].
  cbn [List.length]. now rewrite !length_app.
Qed.

Lemma failure_reconciles_witness :
  conversationId connected_busy_state = Some (lit "abc123")
  /\ exists pre,
    messages connected_busy_state
    = pre ++ [userMessage (hd_exchange connected_busy_state)]
    /\ sender (userMessage (hd_exchange connected_busy_state)) = User
    /\ messages (fst (step connected_busy_state
                           (Settle 0 (FetchRejects (lit "Failed to fetch")) 5000)))
       = pre ++ [{| id := id (userMessage (hd_exchange connected_busy_state));
                    content := content (userMessage (hd_exchange connected_busy_state));
                    sender := sender (userMessage (hd_exchange connected_busy_state));
                    timestamp := timestamp (userMessage (hd_exchange connected_busy_state));
                    status := Some Error;
                    sql := sql (userMessage (hd_exchange connected_busy_state));
                    results := results (userMessage (hd_exchange connected_busy_state)) |}]
    /\ List.length
         (messages (fst (step connected_busy_state
                           (Settle 0 (FetchRejects (lit "Failed to fetch")) 5000))))
       = List.length (messages connected_busy_state)
    /\ conversationId (fst (step connected_busy_state
                                 (Settle 0 (FetchRejects (lit "Failed to fetch")) 5000)))
       = conversationId connected_busy_state.
Proof.
  split; [reflexivity|].
  apply (failure_reconciles 0 connected_busy_state).
  - exact connected_busy_state_reachable.
  - reflexivity.
  - exact I.
Defined.

(** C4 as the claim states it does not hold: when [fetch] itself rejects
    there is no [detail], yet the session error is not the generic message
    but the message of the rejection. *)
Lemma session_error_counterexample :
  let o := FetchRejects (lit "Failed to fetch") in
  reachable 0 busy_state
  /\ pending busy_state
  /\ failed o
  /\ detail_of o = None
  /\ error_after busy_state 0 o 3000 = Some (lit "Failed to fetch")
  /\ error_after busy_state 0 o 3000
     <> Some (or_else (detail_of o) generic_error).
Proof.
  split; [exact busy_state_reachable|].
  split; [vm_compute; discriminate|].
  split; [exact I|].
  split; [reflexivity|].
  split; [reflexivity|].
  vm_compute; discriminate.
Qed.

(** C4, amended: after a failed exchange the session error is, for a
    non-2xx response with a readable body, its [detail] when that is a
    non-empty string and the generic message otherwise; and for a rejected
    [fetch] or an unreadable body, the message of the rejection when that
    is non-empty and the generic message otherwise. A non-2xx response
    with body [{"detail": "token expired"}] gives exactly
    ["token expired"]. *)
Theorem session_error_on_failure s k e stamp :
  nth_error (inflight s) k = Some e ->
  (forall d, d <> [] ->
     error_after s k (NotOk (JsonResolves {| detail := Some d |})) stamp = Some d)
  /\ error_after s k (NotOk (JsonResolves {| detail := Some [] |})) stamp
     = Some generic_error
  /\ error_after s k (NotOk (JsonResolves {| detail := None |})) stamp
     = Some generic_error
  /\ (forall o message,
        o = FetchRejects message \/ o = NotOk (JsonRejects message)
        \/ o = Ok (JsonRejects message) ->
        error_after s k o stamp
        = Some (if truthy message then message else generic_error))
  /\ error_after s k
       (NotOk (JsonResolves {| detail := Some (lit "token expired") |})) stamp
     = Some (lit "token expired").
Proof.
  intros E; unfold error_after; cbn [step]; rewrite E; cbn [fst].
  split; [|split; [|split; [|split]]]; try reflexivity.
  - intros [|c d] H; [congruence | reflexivity].
  - intros o message [-> | [-> | ->]]; reflexivity.
Qed.

Lemma session_error_on_failure_witness :
  (forall d, d <> [] ->
     error_after busy_state 0 (NotOk (JsonResolves {| detail := Some d |})) 3000
     = Some d)
  /\ error_after busy_state 0 (NotOk (JsonResolves {| detail := Some [] |})) 3000
     = Some generic_error
  /\ error_after busy_state 0 (NotOk (JsonResolves {| detail := None |})) 3000
     = Some generic_error
  /\ (forall o message,
        o = FetchRejects message \/ o = NotOk (JsonRejects message)
        \/ o = Ok (JsonRejects message) ->
        error_after busy_state 0 o 3000
        = Some (if truthy message then message else generic_error))
  /\ error_after busy_state 0
       (NotOk (JsonResolves {| detail := Some (lit "token expired") |})) 3000
     = Some (lit "token expired").
Proof.
  apply (session_error_on_failure busy_state 0 (hd_exchange busy_state) 3000).
  reflexivity.
Defined.

(** The second scenario: the relay answers 500 with a [detail]. *)
Example token_expired_scenario :
  let s := fst (step busy_state
                  (Settle 0 (NotOk (JsonResolves
                                      {| detail := Some (lit "token expired") |}))
                     3000)) in
  error s = Some (lit "token expired")
  /\ map (fun m => (sender m, status m)) (messages s)
     = [(Assistant, None); (User, Some Error)]
  /\ conversationId s = None /\ isLoading s = false.
Proof. repeat split. Qed.

(* ===================================================================== *)
(** ** The life of a submitted message *)





(** The two ends of a submitted message, run from a fresh session. *)
Example terminal_status_scenarios :
  let evs := [SetInput (lit "What tables are available?"); SendMessage 1000 1001] in
  map status (messages (fst (run (init 0) evs))) = [None; Some Sending]
  /\ map status
       (messages (fst (run (init 0)
                         (evs ++ [Settle 0 (Ok (JsonResolves tables_body)) 3000]))))
     = [None; Some Sent; None]
  /\ map status
       (messages (fst (run (init 0)
                         (evs ++ [Settle 0 (FetchRejects (lit "Failed to fetch"))
                                    3000]))))
     = [None; Some Error].
Proof. repeat split. Qed.

(* ===================================================================== *)
(** ** The welcome message *)

Lemma step_keeps_prefix s ev i :
  i < List.length (messages s) - 1 ->
  nth_error (messages (fst (step s ev))) i = nth_error (messages s) i.
Proof.
  intros Hi.
  destruct ev as [text | stamp clock | k o stamp]; cbn [step].
  - reflexivity.
  - guard_cases s; cbn; [reflexivity|].
    apply nth_error_app1; lia.
  - destruct (nth_error (inflight s) k) as [e|]; cbn [fst]; [|reflexivity].
    unfold resume.
    outcome_cases o; cbn; now apply nth_error_slice_0_neg1.
Qed.

(** C10: in every state of a session the first message is the welcome
    message the session was seeded with, as it was seeded; it still is
    after any further events, however the exchanges end; and no event
    changes a message that stands before the last one. *)
Theorem welcome_stays_first mounted s :
  reachable mounted s ->
  hd_error (messages s) = Some (welcome mounted)
  /\ (forall evs,
         hd_error (messages (fst (run s evs))) = Some (welcome mounted))
  /\ (forall ev i,
         i < List.length (messages s) - 1 ->
         nth_error (messages (fst (step s ev))) i = nth_error (messages s) i).
Proof.
  intros R. split; [|split].
  - now apply reachable_welcome.
  - intros evs. now apply reachable_welcome, reachable_run.
  - apply step_keeps_prefix.
Qed.

Lemma welcome_stays_first_witness :
  hd_error (messages connected_busy_state) = Some (welcome 0)
  /\ (forall evs,
         hd_error (messages (fst (run connected_busy_state evs)))
         = Some (welcome 0))
  /\ (forall ev i,
         i < List.length (messages connected_busy_state) - 1 ->
         nth_error (messages (fst (step connected_busy_state ev))) i
         = nth_error (messages connected_busy_state) i).
Proof.
  apply (welcome_stays_first 0 connected_busy_state).
  exact connected_busy_state_reachable.
Defined.

(* ===================================================================== *)
(** ** The conversation identifier *)

Lemma step_requests s ev :
  Forall (carries (conversationId s)) (snd (step s ev)).
Proof.
  destruct ev as [text | stamp clock | k o stamp]; cbn [step].
  - constructor.
  - guard_cases s; cbn; repeat constructor.
  - destruct (nth_error (inflight s) k); constructor.
Qed.

Lemma step_keeps_adopted mounted s ev c :
  Inv mounted s -> conversationId s = Some c ->
  conversationId (fst (step s ev)) = Some c.
Proof.
  intros [C I] Hc.
  destruct ev as [text | stamp clock | k o stamp]; cbn [step].
  - exact Hc.
  - guard_cases s; exact Hc.
  - destruct (nth_error (inflight s) k) as [e|] eqn:N; [|exact Hc].
    inflight_cases s I; [destruct k; discriminate|].
    destruct k as [|k]; [|destruct k; discriminate].
    injection N as ->. destruct I as [_ [Seen _]].
    unfold resume.
    outcome_cases o; cbn; try exact Hc.
    rewrite Seen, Hc. rewrite Hc in C.
    destruct c as [|x c]; [now elim C | reflexivity].
Qed.

Lemma step_keeps_null s ev :
  conversationId s = None -> adopting ev = false ->
  conversationId (fst (step s ev)) = None.
Proof.
  intros Hc A.
  destruct ev as [text | stamp clock | k o stamp]; cbn [step].
  - exact Hc.
  - guard_cases s; exact Hc.
  - destruct (nth_error (inflight s) k) as [e|]; [|exact Hc].
    unfold resume.
    outcome_cases o; cbn; try exact Hc.
    cbn in A. apply negb_false_iff in A. rewrite A, andb_false_r. exact Hc.
Qed.

Lemma run_cons s ev evs :
  run s (ev :: evs)
  = (fst (run (fst (step s ev)) evs),
     snd (step s ev) ++ snd (run (fst (step s ev)) evs)).
Proof.
  cbn [run]. destruct (step s ev) as [s1 out1].
  cbn [fst snd]. destruct (run s1 evs); reflexivity.
Qed.

Lemma run_app s evs evs' :
  fst (run s (evs ++ evs')) = fst (run (fst (run s evs)) evs').
Proof.
  revert s; induction evs as [|ev evs IH]; intros s; [reflexivity|].
  rewrite <- app_comm_cons, !run_cons; cbn [fst]. apply IH.
Qed.

Lemma run_keeps_adopted mounted s c evs :
  reachable mounted s -> conversationId s = Some c ->
  conversationId (fst (run s evs)) = Some c
  /\ Forall (carries (Some c)) (snd (run s evs)).
Proof.
  revert s; induction evs as [|ev evs IH]; intros s R Hc.
  - split; [exact Hc | constructor].
  - rewrite run_cons; cbn [fst snd].
    destruct (IH (fst (step s ev))) as [IH1 IH2].
    + now constructor.
    + apply step_keeps_adopted with mounted; [now apply reachable_Inv | exact Hc].
    + split; [exact IH1|]. apply Forall_app; split; [|exact IH2].
      rewrite <- Hc. apply step_requests.
Qed.

Lemma run_keeps_null s evs :
  conversationId s = None ->
  forallb (fun ev => negb (adopting ev)) evs = true ->
  conversationId (fst (run s evs)) = None
  /\ Forall (carries None) (snd (run s evs)).
Proof.
  revert s; induction evs as [|ev evs IH]; intros s Hc A.
  - split; [exact Hc | constructor].
  - cbn [forallb] in A. apply andb_prop in A as [A1 A2].
    apply negb_true_iff in A1.
    rewrite run_cons; cbn [fst snd].
    destruct (IH (fst (step s ev))) as [IH1 IH2];
      [now apply step_keeps_null | exact A2 |].
    split; [exact IH1|]. apply Forall_app; split; [|exact IH2].
    rewrite <- Hc. apply step_requests.
Qed.

(** C5 as the claim states it does not hold: the first successful exchange
    of a session need not set the conversation identifier. When its
    response carries none, the identifier is still null afterwards, and it
    is the second successful exchange that sets it. *)
Lemma first_success_counterexample :
  let evs := [SetInput (lit "hi"); SendMessage 1000 1001] in
  let first := Settle 0 (Ok (JsonResolves plain_body)) 2000 in
  let s1 := fst (run (init 0) (evs ++ [first])) in
  let s2 := fst (run s1 [SetInput (lit "What tables are available?");
                         SendMessage 3000 3001;
                         Settle 0 (Ok (JsonResolves tables_body)) 4000]) in
  forallb (fun ev => negb (successful ev)) evs = true
  /\ successful first = true
  /\ List.length (inflight (fst (run (init 0) evs))) = 1
  /\ map status (messages s1) = [None; Some Sent; None]
  /\ conversationId s1 = None
  /\ conversationId s2 = Some (lit "abc123").
Proof. vm_compute. repeat split. Qed.

(** C5, amended: from a state with a null conversation identifier, it stays
    null, and requests carry null, as long as no exchange succeeds with a
    response that carries a non-empty conversation identifier; the first
    exchange that does so sets it to that identifier; and once it is set,
    no sequence of events changes it and every request sent carries it. *)
Theorem conversation_id_lifecycle mounted s :
  reachable mounted s ->
  (forall evs,
      conversationId s = None ->
      forallb (fun ev => negb (adopting ev)) evs = true ->
      conversationId (fst (run s evs)) = None
      /\ Forall (carries None) (snd (run s evs)))
  /\ (forall e reply c stamp,
         inflight s = [e] ->
         conversationId s = None ->
         r_conversation_id reply = Some c -> c <> [] ->
         conversationId (fst (step s (Settle 0 (Ok (JsonResolves reply)) stamp)))
         = Some c)
  /\ (forall c evs,
         conversationId s = Some c ->
         conversationId (fst (run s evs)) = Some c
         /\ Forall (carries (Some c)) (snd (run s evs))).
Proof.
  intros R. split; [|split].
  - intros evs Hc A. now apply run_keeps_null.
  - intros e reply c stamp E Hc B Hn.
    destruct (reachable_pending_shape mounted s e R E) as [Seen _].
    rewrite (settle_pending s e _ _ E); cbn.
    rewrite Seen, Hc, B. destruct c; [congruence | reflexivity].
  - intros c evs Hc. now apply run_keeps_adopted with mounted.
Qed.

Lemma conversation_id_lifecycle_witness :
  (conversationId (fst (step busy_state (Settle 0 (Ok (JsonResolves plain_body)) 3000)))
   = None
   /\ conversationId
        (fst (step busy_state (Settle 0 (Ok (JsonResolves tables_body)) 3000)))
      = Some (lit "abc123"))
  /\ forall evs,
      conversationId (fst (run connected_busy_state evs)) = Some (lit "abc123")
      /\ Forall (carries (Some (lit "abc123")))
           (snd (run connected_busy_state evs)).
Proof.
  split.
  - destruct (conversation_id_lifecycle 0 busy_state busy_state_reachable)
      as [Null [Adopt _]].
    split.
    + apply (proj1 (Null [Settle 0 (Ok (JsonResolves plain_body)) 3000]
                           eq_refl eq_refl)).
    + apply (Adopt (hd_exchange busy_state) tables_body (lit "abc123") 3000%N);
        try reflexivity. vm_compute; discriminate.
  - intros evs.
    destruct (conversation_id_lifecycle 0 connected_busy_state
                connected_busy_state_reachable) as [_ [_ Keep]].
    apply Keep. reflexivity.
Defined.

(* ===================================================================== *)
(** ** The result table *)

Import Render.

(** C8: for a payload with a column list and a row list, the card shows a
    table whose body is the first 10 rows, rendered cell by cell; when the
    payload has more than 10 rows a note under the table says that the
    first 10 rows are shown of [row_count] in total, where [row_count] is
    the payload's own; when it has 10 rows or fewer all rows are shown and
    there is no note; and the badge of the card shows the payload's
    [row_count]. *)
Theorem results_table_shows_first_ten r cols rows :
  columns r = Some cols ->
  data r = Some rows ->
  exists bdg t,
    render_results (Some r) = Some {| badge := bdg; body := TableView t |}
    /\ thead t = cols
    /\ tbody t = map (map render_cell) (firstn 10 rows)
    /\ List.length (tbody t) = Nat.min 10 (List.length rows)
    /\ (10 < List.length rows ->
        footer t = Some [Text (lit "Showing first 10 rows of ");
                         Num (row_count r); Text (lit " total")])
    /\ (List.length rows <= 10 ->
        footer t = None /\ tbody t = map (map render_cell) rows)
    /\ (forall n, row_count r = Some n ->
          bdg = Some [Num (Some n); Text (lit " row");
                      Text (if (n =? 1)%Z then [] else lit "s")]).
Proof.
  intros Hc Hd. unfold render_results; rewrite Hc, Hd.
  eexists; eexists; split; [reflexivity|]; cbn [thead tbody footer].
  rewrite slice_0_10.
  split; [reflexivity|]. split; [reflexivity|].
  split; [now rewrite length_map, length_firstn|].
  split; [|split].
  - intros H; apply Nat.ltb_lt in H; now rewrite H.
  - intros H; split.
    + apply Nat.ltb_ge in H; now rewrite H.
    + now rewrite firstn_all2.
  - intros n ->; reflexivity.
Qed.

Lemma results_table_shows_first_ten_witness :
  exists bdg t,
    render_results (Some (payload 15))
    = Some {| badge := bdg; body := TableView t |}
    /\ thead t = [lit "name"]
    /\ tbody t = map (map render_cell) (firstn 10 (repeat [SStr (lit "orders")] 15))
    /\ List.length (tbody t) = Nat.min 10 (List.length (repeat [SStr (lit "orders")] 15))
    /\ (10 < List.length (repeat [SStr (lit "orders")] 15) ->
        footer t = Some [Text (lit "Showing first 10 rows of ");
                         Num (row_count (payload 15)); Text (lit " total")])
    /\ (List.length (repeat [SStr (lit "orders")] 15) <= 10 ->
        footer t = None
        /\ tbody t = map (map render_cell) (repeat [SStr (lit "orders")] 15))
    /\ (forall n, row_count (payload 15) = Some n ->
          bdg = Some [Num (Some n); Text (lit " row");
                      Text (if (n =? 1)%Z then [] else lit "s")]).
Proof.
  apply (results_table_shows_first_ten (payload 15)); reflexivity.
Defined.

Example fifteen_rows :
  match render_results (Some (payload 15)) with
  | Some {| badge := Some [Num (Some total); _; _];
            body := TableView t |} =>
      List.length (tbody t) = 10
      /\ total = 15%Z
      /\ footer t = Some [Text (lit "Showing first 10 rows of ");
                          Num (Some 15%Z); Text (lit " total")]
  | _ => False
  end.
Proof. vm_compute. repeat split. Qed.

(* ===================================================================== *)
(** ** Showing and hiding a generated query *)

Lemma jsstr_eqb_eq a b : jsstr_eqb a b = true <-> a = b.
Proof.
  revert b; induction a as [|x a IH]; intros [|y b]; cbn; try easy.
  rewrite andb_true_iff, N.eqb_eq, IH. split.
  - now intros [-> ->].
  - now intros [= -> ->].
Qed.

Lemma jsstr_eqb_refl a : jsstr_eqb a a = true.
Proof. now apply jsstr_eqb_eq. Qed.

Lemma jsstr_eqb_neq a b : jsstr_eqb a b = false <-> a <> b.
Proof.
  rewrite <- jsstr_eqb_eq. destruct (jsstr_eqb a b); split; congruence.
Qed.

Module JsSetFacts.
Import JsSet.

Lemma has_In x s : has x s = true <-> In x s.
Proof.
  unfold has; rewrite existsb_exists; split.
  - intros [y [Hy E]]. apply jsstr_eqb_eq in E; now subst.
  - intros H; exists x; split; [exact H | apply jsstr_eqb_refl].
Qed.

Lemma has_add y x s :
  has y (add x s) = jsstr_eqb x y || has y s.
Proof.
  unfold add. destruct (has x s) eqn:Hx.
  - destruct (jsstr_eqb x y) eqn:E; [|reflexivity].
    apply jsstr_eqb_eq in E; subst. now rewrite Hx.
  - unfold has. rewrite existsb_app; cbn.
    rewrite orb_false_r, orb_comm. f_equal.
    destruct (jsstr_eqb y x) eqn:E.
    + apply jsstr_eqb_eq in E; subst. symmetry; apply jsstr_eqb_refl.
    + symmetry; apply jsstr_eqb_neq. apply jsstr_eqb_neq in E. congruence.
Qed.

Lemma has_delete y x s :
  has y (delete x s) = negb (jsstr_eqb x y) && has y s.
Proof.
  unfold delete, has. induction s as [|z s IH]; cbn.
  - now rewrite andb_false_r.
  - destruct (jsstr_eqb x z) eqn:Ez; cbn; rewrite IH.
    + apply jsstr_eqb_eq in Ez; subst z.
      destruct (jsstr_eqb y x) eqn:Ey; cbn; [|reflexivity].
      apply jsstr_eqb_eq in Ey; subst y. now rewrite jsstr_eqb_refl.
    + destruct (jsstr_eqb y z) eqn:Ey; cbn.
      * apply jsstr_eqb_eq in Ey; subst z. now rewrite Ez.
      * reflexivity.
Qed.

Lemma NoDup_add x s : NoDup s -> NoDup (add x s).
Proof.
  intros H; unfold add. destruct (has x s) eqn:Hx; [exact H|].
  apply NoDup_app; [exact H | repeat constructor; intros [] | ].
  intros y Hy [<- | []]. apply has_In in Hy; congruence.
Qed.

Lemma NoDup_delete x s : NoDup s -> NoDup (delete x s).
Proof. apply NoDup_filter. Qed.

Lemma delete_absent x s : has x s = false -> delete x s = s.
Proof.
  unfold delete, has; induction s as [|z s IH]; cbn; [reflexivity|].
  intros H; apply orb_false_elim in H as [Hz Hs].
  now rewrite Hz, IH.
Qed.

Lemma delete_snoc x s : has x s = false -> delete x (s ++ [x]) = s.
Proof.
  intros H; unfold delete. rewrite filter_app; cbn.
  rewrite jsstr_eqb_refl; cbn. rewrite app_nil_r. now apply delete_absent.
Qed.

End JsSetFacts.
Import JsSetFacts.

Lemma has_toggle x y s :
  JsSet.has y (toggleSqlVisibility x s)
  = if jsstr_eqb x y then negb (JsSet.has y s) else JsSet.has y s.
Proof.
  unfold toggleSqlVisibility; cbv zeta.
  destruct (JsSet.has x s) eqn:Hx.
  - rewrite has_delete. destruct (jsstr_eqb x y) eqn:E; [|reflexivity].
    apply jsstr_eqb_eq in E; subst. now rewrite Hx.
  - rewrite has_add. destruct (jsstr_eqb x y) eqn:E; [|reflexivity].
    apply jsstr_eqb_eq in E; subst. now rewrite Hx.
Qed.

(** X1: clicking "View SQL Query" on a message that has a generated query
    shows the query if it was hidden and hides it if it was shown, turning
    the chevron with it; the bubble of a message with another id is left
    exactly as it was. *)
Theorem toggle_flips_one_query showSqlFor (m m' : Message) q :
  sql m = Some q -> q <> [] ->
  let shown := JsSet.has (id m) showSqlFor in
  Ui.sql_view_of (Ui.render_message showSqlFor m)
  = Some {| Ui.chevron_down := shown;
            Ui.code := if shown then Some q else None |}
  /\ Ui.sql_view_of
       (Ui.render_message (toggleSqlVisibility (id m) showSqlFor) m)
     = Some {| Ui.chevron_down := negb shown;
               Ui.code := if negb shown then Some q else None |}
  /\ (id m' <> id m ->
      Ui.render_message (toggleSqlVisibility (id m) showSqlFor) m'
      = Ui.render_message showSqlFor m').
Proof.
  intros Hq Hn shown.
  assert (T : truthy q = true) by (destruct q; [congruence | reflexivity]).
  split; [|split].
  - unfold Ui.render_message, Ui.render_sql; cbn. now rewrite Hq, T.
  - unfold Ui.render_message, Ui.render_sql; cbn. rewrite Hq, T.
    rewrite has_toggle, jsstr_eqb_refl. reflexivity.
  - intros Hid. unfold Ui.render_message, Ui.render_sql.
    rewrite has_toggle.
    assert (E : jsstr_eqb (id m) (id m') = false)
      by (apply jsstr_eqb_neq; congruence).
    now rewrite E.
Qed.

Lemma toggle_flips_one_query_witness :
  let m := {| id := lit "m-1"; content := lit "Here are your tables";
              sender := Assistant; timestamp := DateOf None; status := None;
              sql := Some (lit "SHOW TABLES"); results := None |} in
  let shown := JsSet.has (id m) [] in
  Ui.sql_view_of (Ui.render_message [] m)
  = Some {| Ui.chevron_down := shown;
            Ui.code := if shown then Some (lit "SHOW TABLES") else None |}
  /\ Ui.sql_view_of (Ui.render_message (toggleSqlVisibility (id m) []) m)
     = Some {| Ui.chevron_down := negb shown;
               Ui.code := if negb shown then Some (lit "SHOW TABLES") else None |}
  /\ (id (welcome 0) <> id m ->
      Ui.render_message (toggleSqlVisibility (id m) []) (welcome 0)
      = Ui.render_message [] (welcome 0)).
Proof.
  intros m.
  apply (toggle_flips_one_query [] m (welcome 0) (lit "SHOW TABLES")).
  - reflexivity.
  - vm_compute; discriminate.
Defined.

(** X2: toggling the same id twice gives back a set with the same members;
    when the id was not in the set it gives back the very same set; and a
    set without duplicates stays without duplicates. *)
Theorem toggle_twice_restores x (s : JsSet.t) :
  (forall y, JsSet.has y (toggleSqlVisibility x (toggleSqlVisibility x s))
             = JsSet.has y s)
  /\ (JsSet.has x s = false ->
      toggleSqlVisibility x (toggleSqlVisibility x s) = s)
  /\ (NoDup s -> NoDup (toggleSqlVisibility x s)).
Proof.
  split; [|split].
  - intros y. rewrite !has_toggle.
    destruct (jsstr_eqb x y); [apply negb_involutive | reflexivity].
  - intros H. unfold toggleSqlVisibility at 2; cbv zeta. rewrite H.
    unfold JsSet.add; rewrite H.
    unfold toggleSqlVisibility; cbv zeta.
    assert (Hx : JsSet.has x (s ++ [x]) = true)
      by (apply has_In, in_or_app; right; now left).
    rewrite Hx. now apply delete_snoc.
  - intros N. unfold toggleSqlVisibility; cbv zeta.
    destruct (JsSet.has x s); [now apply NoDup_delete | now apply NoDup_add].
Qed.

(* ===================================================================== *)
(** ** The shape of the transcript *)

Lemma trim_idempotent s : trim (trim s) = trim s.
Proof.
  destruct (trim_spec s) as [_ [Hhead Hlast]].
  destruct (trim s) as [|c t] eqn:E; [reflexivity|].
  unfold trim. rewrite (trimStart_fixed c t (Hhead c t eq_refl)).
  destruct (exists_last (l := c :: t)) as [u [d Eu]]; [discriminate|].
  rewrite Eu. unfold trimEnd. rewrite rev_app_distr; cbn [rev app].
  rewrite (trimStart_fixed d (rev u) (Hlast u d Eu)).
  cbn [rev]. now rewrite rev_involutive.
Qed.

Lemma turns_app l l' : turns l -> turns l' -> turns (l ++ l').
Proof.
  induction 1; intros H'; cbn; [exact H' | |].
  - apply turns_error; auto.
  - apply turns_sent; auto.
Qed.

Lemma turns_settled l : turns l -> Forall settled l.
Proof.
  induction 1; repeat constructor; trivial; unfold settled; congruence.
Qed.

Lemma tidy_with_status m st : tidy m -> tidy (with_status m st).
Proof. unfold tidy; cbn; auto. Qed.

Lemma last_status_snoc l m : last_status (l ++ [m]) = status m.
Proof. unfold last_status. now rewrite rev_app_distr. Qed.

Lemma or_else_generic_nonempty a : or_else a generic_error <> [].
Proof.
  destruct a as [[|c a]|]; cbn; try discriminate.
Qed.

(** What holds of every state of a session besides [Inv]: the sequence is
    the welcome message, then settled turns, then the provisional messages
    of the outstanding exchanges; every user message is tidy; the session
    error is never the empty string, is null while an exchange is
    outstanding, and otherwise is set exactly when the last message is a
    failed one. *)
Lemma reachable_transcript mounted s :
  reachable mounted s ->
  (exists turns_so_far,
      messages s = welcome mounted :: turns_so_far ++ map userMessage (inflight s)
      /\ turns turns_so_far)
  /\ Forall tidy (messages s)
  /\ error s <> Some []
  /\ (inflight s <> [] -> error s = None)
  /\ (inflight s = [] ->
      (error s <> None <-> last_status (messages s) = Some Error)).
Proof.
  induction 1 as [|s ev R IH].
  - split; [exists []; split; [reflexivity | constructor]|].
    split; [repeat constructor; unfold tidy; cbn; discriminate|].
    split; [discriminate|]. split; [intros H; now elim H|].
    intros _; cbn; split; [intros H; now elim H | discriminate].
  - pose proof (reachable_Inv mounted s R) as [_ I].
    destruct IH as [[body [M T]] [Ti [En [Ep Ei]]]].
    destruct ev as [text | stamp clock | k o stamp]; cbn [step].
    + cbn. repeat split; eauto; try apply Ei; auto.
    + guard_cases s; cbn [fst].
      * repeat split; eauto; try apply Ei; auto.
      * apply orb_false_elim in G as [Gt L].
        apply negb_false_iff in Gt.
        rewrite (reachable_idle mounted s R L) in *. cbn in M |- *.
        rewrite app_nil_r in M.
        split; [exists body; split; [now rewrite M | exact T]|].
        split.
        { apply Forall_app; split; [exact Ti|]. constructor; [|constructor].
          intros _; cbn. split; [|split; [apply trim_idempotent | now split]].
          destruct (trim (input s)); [discriminate | discriminate]. }
        split; [discriminate|]. split; [reflexivity|]. discriminate.
    + destruct (nth_error (inflight s) k) as [e|] eqn:N; cbn [fst].
      2: { repeat split; eauto; try apply Ei; auto. }
      assert (E : inflight s = [e] /\ k = 0).
      { inflight_cases s I.
        - destruct k; discriminate.
        - destruct k as [|k]; [|destruct k; discriminate].
          injection N as ->. now split. }
      destruct E as [E ->]. rewrite E in *. cbn [drop_nth map] in *.
      destruct I as [_ [_ [U [_ _]]]].
      assert (Sl : slice 0 (-1) (messages s) = welcome mounted :: body).
      { rewrite M, app_comm_cons; apply slice_0_neg1_snoc. }
      assert (Tum : tidy (userMessage e)).
      { rewrite M in Ti. apply Forall_inv_tail in Ti.
        apply Forall_app in Ti as [_ Ti]. now apply Forall_inv in Ti. }
      assert (Tb : Forall tidy (welcome mounted :: body)).
      { rewrite M, app_comm_cons in Ti. now apply Forall_app in Ti as [Ti _]. }
      assert (Caught : forall message,
                 let s' := finally_block
                             (catch_block e message (set_inflight [] s)) in
                 (exists turns_so_far,
                     messages s'
                     = welcome mounted :: turns_so_far
                       ++ map userMessage (inflight s')
                     /\ turns turns_so_far)
                 /\ Forall tidy (messages s')
                 /\ error s' <> Some []
                 /\ (inflight s' <> [] -> error s' = None)
                 /\ (inflight s' = [] ->
                     (error s' <> None
                      <-> last_status (messages s') = Some Error))).
      { intros message; cbn -[last_status]. rewrite Sl.
        split.
        { exists (body ++ [with_status (userMessage e) Error]).
          split; [now rewrite app_nil_r|].
          apply turns_app; [exact T|]. apply turns_error; [exact U | reflexivity | constructor]. }
        split.
        { change (welcome mounted :: body ++ [with_status (userMessage e) Error])
            with ((welcome mounted :: body) ++ [with_status (userMessage e) Error]).
          apply Forall_app; split; [exact Tb|].
          constructor; [|constructor]. now apply tidy_with_status. }
        split.
        { intros [= H']. revert H'.
          apply (or_else_generic_nonempty (Some message)). }
        split; [intros H'; now elim H'|].
        intros _. rewrite last_status_snoc; cbn.
        split; [reflexivity | discriminate]. }
      unfold resume.
      outcome_cases o; cbn [try_block]; try apply Caught.
      cbn -[last_status]. rewrite Sl.
      split.
      { eexists (body ++ [with_status (userMessage e) Sent; _]).
        split; [now rewrite app_nil_r|].
        apply turns_app; [exact T|].
        apply turns_sent; try reflexivity; [exact U | constructor]. }
      split.
      { change (welcome mounted :: body ++ ?l)
          with ((welcome mounted :: body) ++ l).
        apply Forall_app; split; [exact Tb|].
        constructor; [now apply tidy_with_status|].
        constructor; [|constructor]. unfold tidy; cbn; discriminate. }
      split; [exact En|].
      split; [intros H'; now elim H'|].
      intros _. rewrite (Ep ltac:(discriminate)).
      change (welcome mounted :: body ++ ?l)
        with ((welcome mounted :: body) ++ l).
      replace ((welcome mounted :: body)
               ++ [with_status (userMessage e) Sent;
                   {| id := or_else (r_message_id reply) (toString stamp);
                      content := r_content reply; sender := Assistant;
                      timestamp := DateOf (r_timestamp reply); status := None;
                      sql := r_sql_query reply;
                      results := r_query_results reply |}])
        with (((welcome mounted :: body) ++ [with_status (userMessage e) Sent])
              ++ [{| id := or_else (r_message_id reply) (toString stamp);
                     content := r_content reply; sender := Assistant;
                     timestamp := DateOf (r_timestamp reply); status := None;
                     sql := r_sql_query reply;
                     results := r_query_results reply |}])
        by (now rewrite <- app_assoc).
      rewrite last_status_snoc; cbn.
      split; [intros H'; now elim H' | discriminate].
Qed.

(** X3: in every state of a session the message sequence is the welcome
    message, then a run of settled turns (a failed user message with no
    reply, or a sent user message directly followed by its assistant
    reply), then the provisional message of each outstanding exchange. *)
Theorem transcript_is_turns mounted s :
  reachable mounted s ->
  exists turns_so_far,
    messages s = welcome mounted :: turns_so_far ++ map userMessage (inflight s)
    /\ turns turns_so_far.
Proof.
  intros R.
  destruct (reachable_transcript mounted s R) as [[body [M T]] _].
  exists body. split; [exact M | exact T].
Qed.

Lemma transcript_is_turns_witness :
  exists turns_so_far,
    messages connected_busy_state
    = welcome 0 :: turns_so_far ++ map userMessage (inflight connected_busy_state)
    /\ turns turns_so_far.
Proof.
  apply (transcript_is_turns 0 connected_busy_state).
  exact connected_busy_state_reachable.
Defined.

(** X4: every user message of a session has the shape [sendMessage] gave
    it: a content that is not empty and has no white space at either end,
    no generated query and no result payload; so the bubble of a user
    message never shows a query or a result card. *)
Theorem user_messages_are_tidy mounted s showSqlFor :
  reachable mounted s ->
  Forall tidy (messages s)
  /\ Forall (fun b => Ui.user_side b = true ->
                      Ui.text b <> [] /\ Ui.sql_view_of b = None
                      /\ Ui.card_of b = None)
       (Ui.bubbles (Ui.render s showSqlFor)).
Proof.
  intros R.
  destruct (reachable_transcript mounted s R) as [_ [Ti _]].
  split; [exact Ti|]. cbn. apply Forall_map.
  revert Ti; apply Forall_impl. intros m Tm; cbn.
  unfold Ui.is_user, Ui.render_sql. unfold tidy in Tm.
  destruct (sender m); [|discriminate]. intros _.
  destruct (Tm eq_refl) as [Hc [_ [-> ->]]]. now repeat split.
Qed.

Lemma user_messages_are_tidy_witness :
  Forall tidy (messages connected_busy_state)
  /\ Forall (fun b => Ui.user_side b = true ->
                      Ui.text b <> [] /\ Ui.sql_view_of b = None
                      /\ Ui.card_of b = None)
       (Ui.bubbles (Ui.render connected_busy_state [])).
Proof.
  apply (user_messages_are_tidy 0 connected_busy_state []).
  exact connected_busy_state_reachable.
Defined.

(* ===================================================================== *)
(** ** History only grows *)

Lemma step_keeps_history mounted s ev i m :
  reachable mounted s ->
  nth_error (messages s) i = Some m -> settled m ->
  nth_error (messages (fst (step s ev))) i = Some m.
Proof.
  intros R Hm Sm.
  pose proof (reachable_Inv mounted s R) as [_ I].
  assert (Hi : i < List.length (messages s))
    by (apply nth_error_Some; congruence).
  destruct ev as [text | stamp clock | k o stamp]; cbn [step].
  - exact Hm.
  - guard_cases s; cbn; [exact Hm|].
    now rewrite nth_error_app1.
  - destruct (nth_error (inflight s) k) as [e|] eqn:N; cbn [fst]; [|exact Hm].
    rewrite <- Hm.
    change (resume e o stamp (set_inflight (drop_nth k (inflight s)) s))
      with (fst (resume e o stamp (set_inflight (drop_nth k (inflight s)) s),
                 @nil request)).
    replace (resume e o stamp (set_inflight (drop_nth k (inflight s)) s),
             @nil request)
      with (step s (Settle k o stamp)) by (cbn [step]; now rewrite N).
    apply step_keeps_prefix.
    inflight_cases s I; [destruct k; discriminate|].
    destruct I as [_ [_ [_ [St [pre [M _]]]]]].
    destruct k as [|k]; [|destruct k; discriminate]. injection N as ->.
    rewrite M in Hm, Hi |- *. cbn [List.length] in *.
    rewrite length_app in *; cbn [List.length] in *.
    destruct (Nat.eq_dec i (S (List.length pre))) as [->|]; [|lia].
    exfalso. cbn [nth_error] in Hm.
    rewrite nth_error_app2, Nat.sub_diag in Hm by lia.
    injection Hm as <-. now apply Sm.
Qed.

Lemma step_never_shortens s ev :
  List.length (messages s) <= List.length (messages (fst (step s ev))).
Proof.
  destruct ev as [text | stamp clock | k o stamp]; cbn [step].
  - reflexivity.
  - guard_cases s; cbn; [lia|]. rewrite length_app; cbn; lia.
  - destruct (nth_error (inflight s) k) as [e|]; cbn [fst]; [|lia].
    unfold resume.
    outcome_cases o; cbn; rewrite length_app, slice_0_neg1_length; cbn; lia.
Qed.

Lemma run_never_shortens s evs :
  List.length (messages s) <= List.length (messages (fst (run s evs))).
Proof.
  revert s; induction evs as [|ev evs IH]; intros s; [apply le_n|].
  rewrite run_cons; cbn [fst].
  pose proof (step_never_shortens s ev). specialize (IH (fst (step s ev))). lia.
Qed.

(** X5: the transcript is append-only. A message that is not waiting for
    a response stays where it is, exactly as it is, whatever happens next;
    and no event ever makes the sequence shorter. *)
Theorem history_is_append_only mounted s i m :
  reachable mounted s ->
  nth_error (messages s) i = Some m ->
  settled m ->
  forall evs,
    nth_error (messages (fst (run s evs))) i = Some m
    /\ List.length (messages s) <= List.length (messages (fst (run s evs))).
Proof.
  intros R Hm Sm evs. revert s R Hm.
  induction evs as [|ev evs IH]; intros s R Hm; [split; [exact Hm | apply le_n]|].
  rewrite run_cons; cbn [fst].
  destruct (IH (fst (step s ev))) as [IH1 IH2].
  - now constructor.
  - now apply step_keeps_history with mounted.
  - split; [exact IH1|]. pose proof (step_never_shortens s ev). lia.
Qed.

Lemma history_is_append_only_witness :
  status (hd (welcome 0) (tl (messages connected_busy_state))) = Some Sent
  /\ forall evs,
      nth_error (messages (fst (run connected_busy_state evs))) 1
      = nth_error (messages connected_busy_state) 1
      /\ List.length (messages connected_busy_state)
         <= List.length (messages (fst (run connected_busy_state evs))).
Proof.
  split; [reflexivity|]. intros evs.
  refine (history_is_append_only 0 connected_busy_state 1 _
            connected_busy_state_reachable eq_refl _ evs).
  vm_compute; discriminate.
Defined.

(* ===================================================================== *)
(** ** Requests and messages *)

Lemma user_contents_app l l' :
  user_contents (l ++ l') = user_contents l ++ user_contents l'.
Proof. unfold user_contents. now rewrite filter_app, map_app. Qed.

Lemma user_contents_welcome mounted l :
  user_contents (welcome mounted :: l) = user_contents l.
Proof. reflexivity. Qed.

Lemma user_contents_with_status m st :
  user_contents [with_status m st] = user_contents [m].
Proof. unfold user_contents, Ui.is_user; cbn. now destruct (sender m). Qed.

Lemma step_logs_request mounted s ev :
  reachable mounted s ->
  user_contents (messages (fst (step s ev)))
  = user_contents (messages s) ++ map req_content (snd (step s ev)).
Proof.
  intros R. pose proof (reachable_Inv mounted s R) as [_ I].
  destruct ev as [text | stamp clock | k o stamp]; cbn [step].
  - cbn. now rewrite app_nil_r.
  - guard_cases s; cbn [fst snd map]; [now rewrite app_nil_r|].
    cbn [messages]. now rewrite user_contents_app.
  - destruct (nth_error (inflight s) k) as [e|] eqn:N; cbn [fst snd map];
      rewrite app_nil_r; [|reflexivity].
    inflight_cases s I; [destruct k; discriminate|].
    destruct I as [_ [_ [_ [_ [pre [M _]]]]]].
    destruct k as [|k]; [|destruct k; discriminate]. injection N as ->.
    assert (Sl : slice 0 (-1) (messages s) = welcome mounted :: pre).
    { rewrite M, app_comm_cons; apply slice_0_neg1_snoc. }
    unfold resume.
    outcome_cases o; cbn [try_block finally_block catch_block messages];
      cbn [set_inflight messages]; rewrite Sl, M, app_comm_cons;
      rewrite !user_contents_app; f_equal.
    1-4: apply user_contents_with_status.
    change [with_status (userMessage e) Sent; ?a]
      with ([with_status (userMessage e) Sent] ++ [a]).
    rewrite user_contents_app, user_contents_with_status.
    apply app_nil_r.
Qed.

Lemma run_logs_requests mounted s evs :
  reachable mounted s ->
  user_contents (messages (fst (run s evs)))
  = user_contents (messages s) ++ map req_content (snd (run s evs)).
Proof.
  revert s; induction evs as [|ev evs IH]; intros s R.
  - cbn. now rewrite app_nil_r.
  - rewrite run_cons; cbn [fst snd].
    rewrite (IH (fst (step s ev)) (reach_step ev R)).
    rewrite (step_logs_request mounted s ev R), map_app.
    now rewrite app_assoc.
Qed.

(** X6: at any moment of a session, the requests sent so far are, in
    order, the contents of the user messages now in the transcript: every
    user message shown was sent to the relay exactly once, with the content
    shown, and nothing else was sent. *)
Theorem requests_are_user_messages mounted evs :
  map req_content (snd (run (init mounted) evs))
  = user_contents (messages (fst (run (init mounted) evs))).
Proof.
  pose proof (run_logs_requests mounted (init mounted) evs (reach_init mounted))
    as L.
  cbn [init messages] in L. rewrite user_contents_welcome in L.
  symmetry; exact L.
Qed.

(** How many requests a state can still cause without new input. *)
Lemma requests_bounded_from s evs :
  List.length (snd (run s evs))
  <= (if truthy (trim (input s)) then 1 else 0) + inputs_set evs.
Proof.
  revert s; induction evs as [|ev evs IH]; intros s; [cbn; lia|].
  rewrite run_cons; cbn [snd]. rewrite length_app.
  specialize (IH (fst (step s ev))).
  destruct ev as [text | stamp clock | k o stamp]; cbn [step inputs_set] in *.
  - cbn [fst snd List.length set_input input] in *.
    destruct (truthy (trim text)), (truthy (trim (input s))); lia.
  - unfold sendMessage in *.
    destruct (truthy (trim (input s))) eqn:T; cbn [negb orb] in *.
    + destruct (isLoading s); cbn [fst snd List.length input] in *.
      * rewrite T in IH. lia.
      * change (truthy (trim [])) with false in IH. cbv iota in IH. lia.
    + cbn [fst snd List.length] in *. rewrite T in IH. lia.
  - destruct (nth_error (inflight s) k) as [e|];
      cbn [fst snd List.length] in *; [|lia].
    replace (input (resume e o stamp (set_inflight (drop_nth k (inflight s)) s)))
      with (input s) in IH; [lia|].
    unfold resume. outcome_cases o; reflexivity.
Qed.

(** X7: nothing is sent twice. A sequence of events sends at most as many
    requests as it sets the input box, plus one if the box held text to
    begin with; a fresh session sends at most one request per setting of
    the box; and once a call of [sendMessage] was accepted, no sequence of
    events that does not set the box again sends anything, whether the
    exchange fails or not. *)
Theorem one_request_per_input s evs :
  List.length (snd (run s evs))
  <= (if truthy (trim (input s)) then 1 else 0) + inputs_set evs
  /\ (forall mounted,
        List.length (snd (run (init mounted) evs)) <= inputs_set evs)
  /\ (forall stamp clock,
        snd (step s (SendMessage stamp clock)) <> [] ->
        inputs_set evs = 0 ->
        snd (run (fst (step s (SendMessage stamp clock))) evs) = []).
Proof.
  split; [apply requests_bounded_from|]. split.
  - intros mounted. apply (requests_bounded_from (init mounted)).
  - intros stamp clock Sent0 Z.
    pose proof (requests_bounded_from
                  (fst (step s (SendMessage stamp clock))) evs) as B.
    rewrite Z in B. revert Sent0 B. cbn [step]. guard_cases s; cbn [fst snd].
    + congruence.
    + intros _. cbn [input]. change (truthy (trim [])) with false.
      intros B. destruct (snd (run _ evs)); [reflexivity | cbn in B; lia].
Qed.

Example no_automatic_retry :
  snd (run (init 0)
         [SetInput (lit "hi"); SendMessage 1 1;
          Settle 0 (FetchRejects (lit "Failed to fetch")) 2;
          SendMessage 3 3; SendMessage 4 4])
  = [{| req_content := lit "hi"; req_conversation_id := None |}].
Proof. reflexivity. Qed.

(* ===================================================================== *)
(** ** What the view shows *)

Lemma spinner_settled showSqlFor m :
  Ui.spinner (Ui.render_message showSqlFor m) = false <-> settled m.
Proof.
  unfold settled; cbn. destruct (status m) as [[| |]|]; cbn;
    split; congruence.
Qed.

Lemma existsb_spinner_settled showSqlFor l :
  Forall settled l ->
  existsb Ui.spinner (map (Ui.render_message showSqlFor) l) = false.
Proof.
  induction 1 as [|m l Hm _ IH]; [reflexivity|]. cbn [map existsb].
  rewrite IH, orb_false_r. now apply spinner_settled.
Qed.

(** X8: the "Genie is thinking..." indicator is shown exactly while an
    exchange is outstanding; it is shown exactly when some bubble carries
    the spinner, and a bubble that does is the last one; and the input box
    is disabled exactly then. *)
Theorem thinking_while_pending mounted s showSqlFor :
  reachable mounted s ->
  let v := Ui.render s showSqlFor in
  (Ui.thinking v = true <-> pending s)
  /\ Ui.thinking v = existsb Ui.spinner (Ui.bubbles v)
  /\ (forall i b, nth_error (Ui.bubbles v) i = Some b ->
                  Ui.spinner b = true -> S i = List.length (Ui.bubbles v))
  /\ Ui.input_disabled v = Ui.thinking v.
Proof.
  intros R v. pose proof (reachable_Inv mounted s R) as [_ I].
  unfold v, pending; cbn [Ui.render Ui.thinking Ui.bubbles Ui.input_disabled].
  inflight_cases s I.
  - destruct I as [L [rest [M F]]].
    assert (Fa : Forall settled (messages s)).
    { rewrite M; constructor; [unfold settled; cbn; discriminate | exact F]. }
    rewrite L. split; [split; [discriminate | intros H; now elim H]|].
    split; [symmetry; now apply existsb_spinner_settled|].
    split; [|reflexivity].
    intros i b Hb Sp. exfalso.
    rewrite nth_error_map in Hb.
    destruct (nth_error (messages s) i) as [m|] eqn:Hm; [|discriminate].
    injection Hb as <-.
    rewrite Forall_forall in Fa. specialize (Fa m (nth_error_In _ _ Hm)).
    apply (spinner_settled showSqlFor) in Fa. congruence.
  - destruct I as [L [_ [_ [St [pre [M F]]]]]].
    rewrite L. split; [split; [discriminate | reflexivity]|].
    assert (Fp : Forall settled (welcome mounted :: pre)).
    { constructor; [unfold settled; cbn; discriminate | exact F]. }
    rewrite M, app_comm_cons.
    split; [|split; [|reflexivity]].
    + rewrite map_app, existsb_app, (existsb_spinner_settled _ _ Fp).
      cbn. now rewrite St.
    + intros i b Hb Sp. rewrite length_map, length_app; cbn [List.length].
      rewrite nth_error_map in Hb.
      destruct (Nat.lt_ge_cases i (List.length (welcome mounted :: pre)))
        as [Lt | Ge].
      * exfalso. rewrite nth_error_app1 in Hb by exact Lt.
        destruct (nth_error (welcome mounted :: pre) i) as [m|] eqn:Hm;
          [|discriminate].
        injection Hb as <-.
        rewrite Forall_forall in Fp. specialize (Fp m (nth_error_In _ _ Hm)).
        apply (spinner_settled showSqlFor) in Fp. congruence.
      * assert (i < List.length ((welcome mounted :: pre) ++ [userMessage e])).
        { apply nth_error_Some.
          destruct (nth_error ((welcome mounted :: pre) ++ [userMessage e]) i);
            discriminate. }
        rewrite length_app in H; cbn [List.length] in *. lia.
Qed.

Lemma thinking_while_pending_witness :
  let v := Ui.render busy_state [] in
  (Ui.thinking v = true <-> pending busy_state)
  /\ Ui.thinking v = existsb Ui.spinner (Ui.bubbles v)
  /\ (forall i b, nth_error (Ui.bubbles v) i = Some b ->
                  Ui.spinner b = true -> S i = List.length (Ui.bubbles v))
  /\ Ui.input_disabled v = Ui.thinking v.
Proof.
  apply (thinking_while_pending 0 busy_state []).
  exact busy_state_reachable.
Defined.

(** X9: the error banner shows the session error whenever there is one
    (the session error is never the empty string); it is never shown while
    an exchange is outstanding; and when none is, it is shown exactly when
    the last message of the transcript is a failed one. *)
Theorem error_banner_marks_failure mounted s showSqlFor :
  reachable mounted s ->
  let v := Ui.render s showSqlFor in
  Ui.error_banner v = error s
  /\ (Ui.thinking v = true -> Ui.error_banner v = None)
  /\ (Ui.thinking v = false ->
      (Ui.error_banner v <> None
       <-> last_status (messages s) = Some Error)).
Proof.
  intros R v.
  destruct (reachable_transcript mounted s R) as [_ [_ [En [Ep Ei]]]].
  assert (B : Ui.error_banner v = error s).
  { unfold v; cbn. destruct (error s) as [[|c m]|]; try reflexivity.
    now elim En. }
  rewrite B. split; [reflexivity|]. unfold v; cbn [Ui.render Ui.thinking].
  split.
  - intros L. apply Ep. intros E.
    pose proof (reachable_Inv mounted s R) as [_ I]. rewrite E in I.
    destruct I as [L' _]; congruence.
  - intros L. apply Ei. now apply reachable_idle with mounted.
Qed.

(** A session whose first exchange was answered with status 500. *)
Lemma error_banner_marks_failure_witness :
  let s := fst (step busy_state
                  (Settle 0 (NotOk (JsonResolves
                                      {| detail := Some (lit "token expired") |}))
                     3000)) in
  let v := Ui.render s [] in
  Ui.error_banner v = error s
  /\ (Ui.thinking v = true -> Ui.error_banner v = None)
  /\ (Ui.thinking v = false ->
      (Ui.error_banner v <> None
       <-> last_status (messages s) = Some Error)).
Proof.
  apply (error_banner_marks_failure 0).
  apply reach_step, busy_state_reachable.
Defined.

(** X10: the header says "Connected" exactly when the session has a
    conversation identifier and "New Conversation" otherwise; and once it
    says "Connected" it says so after any further events. *)
Theorem header_tells_connection mounted s showSqlFor :
  reachable mounted s ->
  (conversationId s <> None ->
   Ui.header_status (Ui.render s showSqlFor) = lit "Connected"
   /\ forall evs showSqlFor',
       Ui.header_status (Ui.render (fst (run s evs)) showSqlFor')
       = lit "Connected")
  /\ (conversationId s = None ->
      Ui.header_status (Ui.render s showSqlFor) = lit "New Conversation").
Proof.
  intros R. pose proof (reachable_Inv mounted s R) as [C _].
  assert (H : forall s', reachable mounted s' -> conversationId s' <> None ->
                         forall w, Ui.header_status (Ui.render s' w)
                                   = lit "Connected").
  { intros s' R' N w. pose proof (reachable_Inv mounted s' R') as [C' _].
    cbn. destruct (conversationId s') as [[|c cs]|]; try reflexivity.
    - now elim C'.
    - now elim N. }
  split.
  - intros N. split; [now apply H|].
    intros evs w. apply H; [now apply reachable_run|].
    destruct (conversationId s) as [c|] eqn:E; [|now elim N].
    destruct (run_keeps_adopted mounted s c evs R E) as [-> _]. discriminate.
  - intros E. cbn. now rewrite E.
Qed.

Lemma header_tells_connection_witness :
  (conversationId connected_busy_state <> None ->
   Ui.header_status (Ui.render connected_busy_state []) = lit "Connected"
   /\ forall evs showSqlFor',
       Ui.header_status (Ui.render (fst (run connected_busy_state evs)) showSqlFor')
       = lit "Connected")
  /\ (conversationId connected_busy_state = None ->
      Ui.header_status (Ui.render connected_busy_state [])
      = lit "New Conversation").
Proof.
  apply (header_tells_connection 0 connected_busy_state []).
  exact connected_busy_state_reachable.
Defined.

Lemma only_welcome_iff_no_user mounted s :
  reachable mounted s ->
  ((List.length (messages s) =? 1) = true <-> user_contents (messages s) = []).
Proof.
  intros R. pose proof (reachable_Inv mounted s R) as [_ I].
  destruct (reachable_transcript mounted s R) as [[body [M T]] _].
  rewrite M, user_contents_welcome, user_contents_app, Nat.eqb_eq.
  cbn [List.length]; rewrite length_app, length_map.
  destruct T as [|u rest U _ _|u a rest U _ _ _ _].
  - inflight_cases s I; cbn; [easy|].
    destruct I as [_ [_ [U _]]].
    unfold user_contents, Ui.is_user; cbn. rewrite U; cbn. easy.
  - unfold user_contents at 1, Ui.is_user; cbn. rewrite U; cbn.
    split; [lia | discriminate].
  - unfold user_contents at 1, Ui.is_user; cbn. rewrite U; cbn.
    split; [lia | discriminate].
Qed.

(** X11: the suggested questions are offered exactly as long as the
    session has not sent a request; once a first message was accepted they
    do not come back, whatever happens to it. *)
Theorem suggestions_until_first_request mounted evs showSqlFor :
  Ui.suggestions (Ui.render (fst (run (init mounted) evs)) showSqlFor)
  = match snd (run (init mounted) evs) with
    | [] => Some suggestedQuestions
    | _ :: _ => None
    end
  /\ (snd (run (init mounted) evs) <> [] ->
      forall evs' showSqlFor',
        Ui.suggestions
          (Ui.render (fst (run (init mounted) (evs ++ evs'))) showSqlFor')
        = None).
Proof.
  set (s := fst (run (init mounted) evs)).
  assert (R : reachable mounted s) by (apply reachable_run; constructor).
  pose proof (run_logs_requests mounted (init mounted) evs (reach_init mounted))
    as L.
  fold s in L. cbn [init messages] in L. rewrite user_contents_welcome in L.
  change (user_contents []) with (@nil jsstr) in L. cbn [app] in L.
  pose proof (only_welcome_iff_no_user mounted s R) as W. rewrite L in W.
  assert (Shown : (List.length (messages s) =? 1)
                  = match snd (run (init mounted) evs) with
                    | [] => true
                    | _ :: _ => false
                    end).
  { destruct (snd (run (init mounted) evs)) as [|r rs]; cbn [map] in W.
    - now apply W.
    - destruct (List.length (messages s) =? 1); [|reflexivity].
      now destruct W as [W _]; specialize (W eq_refl). }
  split.
  - cbn [Ui.render Ui.suggestions]. rewrite Shown.
    now destruct (snd (run (init mounted) evs)).
  - intros Hne evs' w. cbn [Ui.render Ui.suggestions].
    rewrite run_app. fold s.
    pose proof (run_never_shortens s evs') as Mono.
    destruct (snd (run (init mounted) evs)) as [|r rs]; [now elim Hne|].
    apply Nat.eqb_neq in Shown.
    assert (Two : 2 <= List.length (messages s)).
    { destruct (reachable_transcript mounted s R) as [[body [M _]] _].
      rewrite M in *; cbn [List.length] in *. lia. }
    destruct (Nat.eqb_spec (List.length (messages (fst (run s evs')))) 1);
      [lia | reflexivity].
Qed.

(** X12: the Send button is disabled exactly when a call of [sendMessage]
    would do nothing. When it is enabled, a click appends one message,
    sends one request with the trimmed input, and leaves the box empty, the
    button disabled, the thinking indicator on and the error banner
    off. *)
Theorem send_button_matches_guard s stamp clock showSqlFor :
  (Ui.send_disabled (Ui.render s showSqlFor) = true ->
   step s (SendMessage stamp clock) = (s, []))
  /\ (Ui.send_disabled (Ui.render s showSqlFor) = false ->
      exists um,
        messages (fst (step s (SendMessage stamp clock))) = messages s ++ [um]
        /\ snd (step s (SendMessage stamp clock))
           = [{| req_content := trim (input s);
                 req_conversation_id := conversationId s |}]
        /\ let v := Ui.render (fst (step s (SendMessage stamp clock)))
                      showSqlFor in
           Ui.input_value v = []
           /\ Ui.send_disabled v = true
           /\ Ui.thinking v = true
           /\ Ui.error_banner v = None).
Proof.
  cbn [Ui.render Ui.send_disabled step]. unfold sendMessage.
  destruct (negb (truthy (trim (input s))) || isLoading s).
  - split; [reflexivity | discriminate].
  - split; [discriminate|]. intros _. eexists. cbn. repeat split.
Qed.

(** X13: a key press submits only when the key is Enter and Shift is not
    held: any other key, and Shift+Enter, leaves the session as it is,
    sends nothing and does not suppress the default action; Enter alone
    always suppresses it and does what a click on Send does, which is
    nothing exactly when the Send button is disabled. *)
Theorem only_plain_enter_submits e stamp clock s showSqlFor :
  (key e <> lit "Enter" \/ shiftKey e = true ->
   handleKeyPress e stamp clock s = (false, (s, [])))
  /\ (key e = lit "Enter" -> shiftKey e = false ->
      handleKeyPress e stamp clock s = (true, step s (SendMessage stamp clock))
      /\ (snd (snd (handleKeyPress e stamp clock s)) = []
          <-> Ui.send_disabled (Ui.render s showSqlFor) = true)).
Proof.
  unfold handleKeyPress. split.
  - intros [K | Sh].
    + apply jsstr_eqb_neq in K. now rewrite K.
    + now rewrite Sh, andb_false_r.
  - intros K Sh. rewrite K, Sh, jsstr_eqb_refl. cbn [andb negb].
    split; [reflexivity|].
    cbn [snd Ui.render Ui.send_disabled]. unfold sendMessage.
    destruct (negb (truthy (trim (input s))) || isLoading s); cbn; easy.
Qed.

Example shift_enter_keeps_typing :
  let s := set_input (lit "first line") (init 0) in
  handleKeyPress {| key := lit "Enter"; shiftKey := true |} 1 1 s = (false, (s, []))
  /\ snd (snd (handleKeyPress {| key := lit "Enter"; shiftKey := false |} 1 1 s))
     = [{| req_content := lit "first line"; req_conversation_id := None |}].
Proof. split; reflexivity. Qed.

Lemma not_blank_Exists l :
  ~ blank l <-> Exists (fun c => isWhiteSpace c = false) l.
Proof.
  unfold blank; induction l as [|c l IH].
  - split; [intros H; elim H; constructor | intros H; inversion H].
  - destruct (isWhiteSpace c) eqn:Hc.
    + split.
      * intros H. apply Exists_cons_tl, IH. intros F. apply H. now constructor.
      * intros H F. inversion H; subst; [congruence|].
        apply IH in H1. apply H1. now inversion F.
    + split; [intros _; now apply Exists_cons_hd|].
      intros _ F. inversion F; congruence.
Qed.

(** X14: the Send button is enabled exactly when no exchange is being
    waited for and the input box holds at least one code unit that is not
    white space. *)
Theorem send_enabled_iff_text s showSqlFor :
  Ui.send_disabled (Ui.render s showSqlFor) = false
  <-> isLoading s = false
      /\ Exists (fun c => isWhiteSpace c = false) (input s).
Proof.
  cbn [Ui.render Ui.send_disabled].
  rewrite orb_false_iff, negb_false_iff, <- not_blank_Exists.
  split; intros [H1 H2]; split; trivial.
  - intros B. now rewrite (trim_blank B) in H1.
  - destruct (trim (input s)) eqn:T; [|reflexivity].
    elim H2. now apply trim_nil_blank.
Qed.

Example send_enabled_examples :
  Ui.send_disabled (Ui.render (set_input [32; 160; 9]%N (init 0)) []) = true
  /\ Ui.send_disabled (Ui.render (set_input (lit " ? ") (init 0)) []) = false
  /\ Ui.send_disabled (Ui.render (set_input (lit "more") busy_state) []) = true.
Proof. repeat split. Qed.
